(** * Echo primer transfer generation: a shallow embedding

    The development follows [ai_suggested/echoscripts_utils.py]: the plate
    helpers ([wells384_list], [wells384_grid]), the pool partitioner
    ([split_primers_from_grid], [sample_primers]), the pair-assignment
    loop of [EchoTransferGenerator.generate_transfer_df] and the barcode
    join ([join_transfer_with_barcodes]).

    Python values are modelled as follows.
    - [str] is [string]; its characters are code points below 256.
    - a 1-D array of labels is [list string], a 2-D grid is a list of rows.
    - [covered_list] is a list of index pairs, appended at the end and
      searched with [in].
    - exceptions are named by their class; a computation returns an
      [outcome]: a value, a raised exception, or an exhausted iteration
      budget for the two [while] loops, which have no bound of their own.
    - numpy's global random state is threaded explicitly. *)

From Stdlib Require Import String Ascii DecimalString.
From Stdlib Require Import List FinFun Permutation ZArith Arith Bool Lia.
Import ListNotations.
Local Open Scope string_scope.
Local Open Scope nat_scope.
Local Open Scope list_scope.

(** ** Outcomes *)

Inductive outcome (A : Type) : Type :=
| Done (a : A)
| Raise (exc : string)
| OutOfFuel.

Arguments Done {A} a.
Arguments Raise {A} exc.
Arguments OutOfFuel {A}.

Definition bind {A B : Type} (c : outcome A) (k : A -> outcome B) : outcome B :=
  match c with
  | Done a => k a
  | Raise exc => Raise exc
  | OutOfFuel => OutOfFuel
  end.

Notation "x <- c ;; k" := (bind c (fun x => k))
  (at level 61, c at next level, right associativity).
Notation "' pat <- c ;; k" := (bind c (fun x => match x with pat => k end))
  (at level 61, pat pattern, c at next level, right associativity).

Definition is_done {A : Type} (c : outcome A) : bool :=
  match c with
  | Done _ => true
  | _ => false
  end.

(** ** The random source

    [np.random] is a library the repository only calls. Its state type,
    the state [np.random.seed] sets for a seed it accepts and the draw of
    [np.random.randint(0, high)] for a positive [high] are taken as an
    interface; the one property used is numpy's contract that the draw
    lies in the half-open range. The errors numpy raises for a seed out
    of range and for [high = 0] are in [random_seed] and [randint]. *)

Class RandomState : Type := {
  rng : Type;
  rng_seed : Z -> rng;
  rng_below : nat -> rng -> nat * rng;
  rng_below_lt : forall high g, 0 < high -> fst (rng_below high g) < high
}.

(** ** Python helpers *)

(** [a[offset:]] on a sequence, for any integer offset: a negative offset
    counts from the end and is clamped at the start. *)
Definition slice_from {A : Type} (offset : Z) (l : list A) : list A :=
  if (offset <? 0)%Z
  then skipn (Z.to_nat (Z.of_nat (length l) + offset)) l
  else skipn (Z.to_nat offset) l.

(** [a[start::2]] for start 0 or 1. *)
Fixpoint evens {A : Type} (l : list A) : list A :=
  match l with
  | [] => []
  | x :: rest =>
      x :: match rest with
           | [] => []
           | _ :: rest' => evens rest'
           end
  end.

Definition odds {A : Type} (l : list A) : list A := evens (tl l).

(** [a[i]] for a non-negative index. *)
Definition getitem {A : Type} (l : list A) (i : nat) : outcome A :=
  match nth_error l i with
  | Some x => Done x
  | None => Raise "IndexError"
  end.

(** [str(n)] for a non-negative integer. *)
Definition str (n : nat) : string := NilEmpty.string_of_uint (Nat.to_uint n).

Definition ascii_uppercase : string := "ABCDEFGHIJKLMNOPQRSTUVWXYZ".

(** [np.reshape(a, (nrows, ncols))] on an array of [nrows * ncols] items. *)
Fixpoint reshape {A : Type} (nrows ncols : nat) (l : list A) : list (list A) :=
  match nrows with
  | 0 => []
  | S n => firstn ncols l :: reshape n ncols (skipn ncols l)
  end.

(** ** Plate helpers *)

Definition wells384_list : list string :=
  flat_map (fun r => map (fun c => String r (str c)) (seq 1 24))
           (list_ascii_of_string (substring 0 16 ascii_uppercase)).

Definition wells384_grid : list (list string) := reshape 16 24 wells384_list.

(** ** Pool partitioner *)

Definition grid := list (list string).

Definition split_primers_from_grid (gr : grid) : list string * list string :=
  let fprimers_full := concat (map evens (evens gr)) in
  let rprimers_full := concat (map odds (odds gr)) in
  (fprimers_full, rprimers_full).

Record EchoTransferGenerator : Type := {
  randseed : Z;
  grid_of : grid;
  fprimers_full : list string;
  rprimers_full : list string
}.

(** The dataclass constructor followed by [__post_init__]: [None] fields
    take their defaults, and when either pool is missing both are rebuilt
    from the grid. *)
Definition new_generator (seed : Z) (gr : option grid)
    (fp rp : option (list string)) : EchoTransferGenerator :=
  let gr' := match gr with Some x => x | None => wells384_grid end in
  match fp, rp with
  | Some f, Some r =>
      {| randseed := seed; grid_of := gr'; fprimers_full := f; rprimers_full := r |}
  | _, _ =>
      let '(f, r) := split_primers_from_grid gr' in
      {| randseed := seed; grid_of := gr'; fprimers_full := f; rprimers_full := r |}
  end.

Definition sample_primers (self : EchoTransferGenerator) (offset : Z)
    : outcome (list string * list string) :=
  let fprimers := slice_from offset (fprimers_full self) in
  let rprimers := slice_from offset (rprimers_full self) in
  Done (fprimers, rprimers).

Definition default_offset : Z := 12.

(** ** The pair-assignment loop *)

(** [string.ascii_uppercase[row] + str(col + 1)] *)
Definition dest_label (row col : nat) : outcome string :=
  match String.get row ascii_uppercase with
  | Some ch => Done (String ch (str (col + 1)))
  | None => Raise "IndexError"
  end.

(** The rows of the nested [for row in range(nrows): for col in range(ncols)]. *)
Definition plate_cells (nrows ncols : nat) : list (nat * nat) :=
  flat_map (fun row => map (fun col => (row, col)) (seq 0 ncols)) (seq 0 nrows).

(** The data frame built from the three column lists. *)
Record DataFrame : Type := {
  Source_Well : list string;
  Destination_Well : list string;
  Volume : list Z
}.

Definition records (df : DataFrame) : list (string * string * Z) :=
  combine (combine (Source_Well df) (Destination_Well df)) (Volume df).

Section Engine.

Context {RS : RandomState}.

(** [np.random.randint(0, high)]: numpy raises [ValueError] unless
    [0 < high]. *)
Definition randint (high : nat) (g : rng) : outcome (nat * rng) :=
  if high =? 0 then Raise "ValueError" else Done (rng_below high g).

(** The local variables of [generate_transfer_df]. [currtup] is rebuilt
    from the two indices right after each pair of draws, so the model
    keeps the indices and forms the tuple where the code tests it. *)
Record locals : Type := {
  sourcewells : list string;
  destwells : list string;
  vols : list Z;
  covered_list : list (nat * nat);
  iforward : nat;
  ireverse : nat;
  rstate : rng
}.

Definition currtup (st : locals) : nat * nat := (iforward st, ireverse st).

Definition pair_eq_dec (p q : nat * nat) : {p = q} + {p <> q}.
Proof. decide equality; apply Nat.eq_dec. Defined.

(** [tup in covered_list] *)
Definition covered (tup : nat * nat) (l : list (nat * nat)) : bool :=
  if in_dec pair_eq_dec tup l then true else false.

Variable fuel : nat.
Variables fprimers rprimers : list string.
Variable volume_nl : Z.

(** [while ireverse == iforward: ireverse = randint(0, len(rprimers))],
    at most [n] iterations. *)
Fixpoint reverse_loop (n : nat) (ifwd irev : nat) (g : rng) : outcome (nat * rng) :=
  if irev =? ifwd then
    match n with
    | 0 => OutOfFuel
    | S n' =>
        '(r, g') <- randint (length rprimers) g ;;
        reverse_loop n' ifwd r g'
    end
  else Done (irev, g).

(** One forward draw, then [ireverse = iforward] and the reverse loop. *)
Definition draw_pair (g : rng) : outcome (nat * nat * rng) :=
  '(ifwd, g1) <- randint (length fprimers) g ;;
  '(irev, g2) <- reverse_loop fuel ifwd ifwd g1 ;;
  Done (ifwd, irev, g2).

(** [while currtup in covered_list: <draw a pair>], at most [n]
    iterations. *)
Fixpoint resample_loop (n : nat) (cov : list (nat * nat)) (ifwd irev : nat)
    (g : rng) : outcome (nat * nat * rng) :=
  if covered (ifwd, irev) cov then
    match n with
    | 0 => OutOfFuel
    | S n' =>
        '(f, r, g') <- draw_pair g ;;
        resample_loop n' cov f r g'
    end
  else Done (ifwd, irev, g).

(** The body of the inner [for] loop, for one destination well. *)
Definition cell_body (cell : nat * nat) (st : locals) : outcome locals :=
  let '(row, col) := cell in
  '(ifwd, irev, g) <-
    resample_loop fuel (covered_list st) (iforward st) (ireverse st) (rstate st) ;;
  let cov := covered_list st ++ [(ifwd, irev)] in
  dest <- dest_label row col ;;
  fsrc <- getitem fprimers ifwd ;;
  rsrc <- getitem rprimers irev ;;
  Done {| sourcewells := sourcewells st ++ [fsrc; rsrc];
          destwells := destwells st ++ [dest; dest];
          vols := vols st ++ [volume_nl; volume_nl];
          covered_list := cov;
          iforward := ifwd;
          ireverse := irev;
          rstate := g |}.

Fixpoint cell_loop (cells : list (nat * nat)) (st : locals) : outcome locals :=
  match cells with
  | [] => Done st
  | cell :: rest => st' <- cell_body cell st ;; cell_loop rest st'
  end.

(** The function body after the pools are formed and the source seeded:
    the first pair, then the loop over the destination wells. *)
Definition assign_pairs (cells : list (nat * nat)) (g : rng) : outcome locals :=
  '(ifwd, irev, g1) <- draw_pair g ;;
  cell_loop cells {| sourcewells := []; destwells := []; vols := [];
                     covered_list := []; iforward := ifwd; ireverse := irev;
                     rstate := g1 |}.

Definition frame_of (st : locals) : DataFrame :=
  {| Source_Well := sourcewells st;
     Destination_Well := destwells st;
     Volume := vols st |}.

End Engine.

(** [np.random.seed(seed)] for an integer seed: numpy raises [ValueError]
    unless [0 <= seed < 2**32]. *)
Definition random_seed {RS : RandomState} (seed : Z) : outcome rng :=
  if ((0 <=? seed) && (seed <? 2 ^ 32))%Z then Done (rng_seed seed)
  else Raise "ValueError".

(** [generate_transfer_df]: [g] is numpy's global state at the call; the
    frame is returned with the global state the call leaves behind. *)
Definition generate_transfer_df {RS : RandomState} (fuel : nat)
    (self : EchoTransferGenerator) (volume_nl : Z) (use_seed : bool) (g : rng)
    : outcome (DataFrame * rng) :=
  '(fprimers, rprimers) <- sample_primers self default_offset ;;
  g0 <- (if use_seed then random_seed (randseed self) else Done g) ;;
  st <- assign_pairs fuel fprimers rprimers volume_nl (plate_cells 16 24) g0 ;;
  Done (frame_of st, rstate st).

(** ** The barcode join *)

(** A row of the transfer frame and a row of the barcode table, with the
    columns the join reads. *)
Record transfer_row : Type := {
  t_Source_Well : string;
  t_Destination_Well : string;
  t_Volume : Z
}.

Record barcode_row : Type := {
  b_Well_Position : string;
  b_Sequence_Name : string;
  b_Sequence : string;
  b_Storage : string
}.

(** A row of the joined frame after the drop: a missing [Direction] (no
    match of the pattern) is [None]. *)
Record joined_row : Type := {
  j_Destination_Well : string;
  j_Sequence : string;
  j_Direction : option ascii
}.

(** [\d] on code points below 256: the ten decimal digits. *)
Definition is_digit (c : ascii) : bool :=
  (48 <=? nat_of_ascii c) && (nat_of_ascii c <=? 57).

Definition newline : ascii := "010"%char.

(** [$] without the multi-line flag: the end of the string, or just
    before a line feed that ends it. *)
Definition at_end (s : string) : bool :=
  match s with
  | EmptyString => true
  | String c EmptyString => Ascii.eqb c newline
  | _ => false
  end.

(** [\d*$] matched from the start of [s]. *)
Fixpoint digits_then_end (s : string) : bool :=
  at_end s ||
  match s with
  | EmptyString => false
  | String c s' => is_digit c && digits_then_end s'
  end.

(** The group of the leftmost match of [([^\d])\d*$], as [re.search]
    finds it. *)
Fixpoint extract_direction (s : string) : option ascii :=
  match s with
  | EmptyString => None
  | String c s' =>
      if negb (is_digit c) && digits_then_end s' then Some c
      else extract_direction s'
  end.

(** [.str.replace(' ', '')] *)
Fixpoint remove_spaces (s : string) : string :=
  match s with
  | EmptyString => EmptyString
  | String c s' =>
      if Ascii.eqb c " "%char then remove_spaces s' else String c (remove_spaces s')
  end.

(** The inner merge on [Source Well] = [Storage], in the order of the
    transfer rows, then the derived and cleaned columns. *)
Definition join_transfer_with_barcodes (df_transfer : list transfer_row)
    (df_barcodes : list barcode_row) : list joined_row :=
  flat_map
    (fun t =>
       map (fun b =>
              {| j_Destination_Well := t_Destination_Well t;
                 j_Sequence := remove_spaces (b_Sequence b);
                 j_Direction := extract_direction (b_Sequence_Name b) |})
           (filter (fun b => String.eqb (t_Source_Well t) (b_Storage b)) df_barcodes))
    df_transfer.

(** The cleaning as the specification words it: every white-space
    character removed. *)
Definition is_whitespace (c : ascii) : bool :=
  let n := nat_of_ascii c in
  (n =? 32) || ((9 <=? n) && (n <=? 13)).

Fixpoint remove_whitespace (s : string) : string :=
  match s with
  | EmptyString => EmptyString
  | String c s' =>
      if is_whitespace c then remove_whitespace s' else String c (remove_whitespace s')
  end.

Fixpoint all_digits (s : string) : bool :=
  match s with
  | EmptyString => true
  | String c s' => is_digit c && all_digits s'
  end.

Fixpoint ends_with_newline (s : string) : bool :=
  match s with
  | EmptyString => false
  | String c EmptyString => Ascii.eqb c newline
  | String _ s' => ends_with_newline s'
  end.

Definition tab : ascii := "009"%char.

(** ** Two concrete random sources *)

(** A linear congruential generator: the draw takes the high bits of the
    next state modulo [high]. *)
Definition lcg_next (s : Z) : Z := ((1103515245 * s + 12345) mod 2147483648)%Z.

Definition lcg_below (high : nat) (s : Z) : nat * Z :=
  let s' := lcg_next s in
  (Z.to_nat ((s' / 65536) mod Z.of_nat high), s').

Lemma lcg_below_lt : forall high g, 0 < high -> fst (lcg_below high g) < high.
Proof.
  intros high g Hpos. unfold lcg_below. cbn [fst].
  pose proof (Z.mod_pos_bound (lcg_next g / 65536) (Z.of_nat high)) as Hb.
  lia.
Qed.

#[local] Instance lcg : RandomState :=
  {| rng := Z; rng_seed := fun z => z; rng_below := lcg_below;
     rng_below_lt := lcg_below_lt |}.

(** A scripted source: the state is the list of the coming raw draws,
    each reduced modulo [high]; an exhausted script keeps drawing 0, and
    seeding leaves the script empty. *)
Definition tape_below (high : nat) (t : list nat) : nat * list nat :=
  match t with
  | [] => (0, [])
  | x :: t' => (x mod high, t')
  end.

Lemma tape_below_lt : forall high g, 0 < high -> fst (tape_below high g) < high.
Proof.
  intros high [|x t] Hpos; cbn [tape_below fst]; [lia|].
  apply Nat.mod_upper_bound. lia.
Qed.

#[local] Instance tape : RandomState :=
  {| rng := list nat; rng_seed := fun _ => []; rng_below := tape_below;
     rng_below_lt := tape_below_lt |}.

Definition default_generator (seed : Z) : EchoTransferGenerator :=
  new_generator seed None None None.

(** * Vocabulary of the properties *)

(** ** Valid index pairs *)

Definition valid_pair (F R : nat) (p : nat * nat) : Prop :=
  fst p < F /\ snd p < R /\ fst p <> snd p.

(** ** The usable pair space *)

Definition usable (F R : nat) : nat := F * R - Nat.min F R.

(** Every index pair with distinct components, enumerated. *)
Definition same_index (p : nat * nat) : bool := fst p =? snd p.

Definition all_pairs (F R : nat) : list (nat * nat) :=
  filter (fun p => negb (same_index p)) (list_prod (seq 0 F) (seq 0 R)).

(** ** The loop invariant *)

Section Invariant.

Context {RS : RandomState}.
Variables fprimers rprimers : list string.
Variable volume_nl : Z.

(** [emitted cells cov src dst vol]: the three columns hold, for each
  processed well in order, the forward then the reverse line of the
  pair recorded for it. *)
Inductive emitted : list (nat * nat) -> list (nat * nat) ->
  list string -> list string -> list Z -> Prop :=
| emitted_nil : emitted [] [] [] [] []
| emitted_snoc cells cov src dst vol row col f r lbl fsrc rsrc :
  emitted cells cov src dst vol ->
  dest_label row col = Done lbl ->
  nth_error fprimers f = Some fsrc ->
  nth_error rprimers r = Some rsrc ->
  emitted (cells ++ [(row, col)]) (cov ++ [(f, r)])
          (src ++ [fsrc; rsrc]) (dst ++ [lbl; lbl])
          (vol ++ [volume_nl; volume_nl]).

Record invariant (done : list (nat * nat)) (st : locals) : Prop := {
inv_emitted :
  emitted done (covered_list st) (sourcewells st) (destwells st) (vols st);
inv_nodup : NoDup (covered_list st);
inv_valid : Forall (valid_pair (length fprimers) (length rprimers)) (covered_list st);
inv_current : valid_pair (length fprimers) (length rprimers) (currtup st)
}.

End Invariant.

(** The label of a well as the specification names it: the capital
    letter of the row, then the column number counted from 1. *)
Definition cell_label (cell : nat * nat) : string :=
  String (ascii_of_nat (65 + fst cell)) (str (snd cell + 1)).

(** The local variables of the loop with the random state replaced. *)
Definition with_rstate {RS : RandomState} (st : locals) (g : rng) : locals :=
  {| sourcewells := sourcewells st; destwells := destwells st; vols := vols st;
     covered_list := covered_list st; iforward := iforward st;
     ireverse := ireverse st; rstate := g |}.

(** The partition as the specification words it: the identifiers at the
    rows and columns of one parity (0 for even, 1 for odd), row by row. *)
Definition cell_at (gr : grid) (i j : nat) : string := nth j (nth i gr []) "".

Definition parity_cells (gr : grid) (nrows ncols parity : nat) : list string :=
  flat_map (fun i => map (fun j => cell_at gr (2 * i + parity) (2 * j + parity))
                         (seq 0 (ncols / 2)))
           (seq 0 (nrows / 2)).

(** ** Configurations the theorems are exercised on *)

(** A small configuration used to exercise the theorems: three forward
    and three reverse labels, a plate of two rows and two columns. *)
Definition demo_fprimers : list string := ["A13"; "A15"; "A17"].
Definition demo_rprimers : list string := ["B14"; "B16"; "B18"].
Definition demo_cells : list (nat * nat) := plate_cells 2 2.

(** A generator handed its pools: 397 forward and 13 reverse entries, so
    that the default offset leaves 385 forward entries and a single
    reverse entry, a usable pair space of exactly the plate's 384 wells. *)
Definition one_reverse_generator : EchoTransferGenerator :=
  new_generator 50 None
    (Some (map (fun n => "F" ++ str n)%string (seq 1 397)))
    (Some (map (fun n => "R" ++ str n)%string (seq 1 13))).

Definition one_reverse_fprimers : list string :=
  slice_from default_offset (fprimers_full one_reverse_generator).

Definition one_reverse_rprimers : list string :=
  slice_from default_offset (rprimers_full one_reverse_generator).

Definition scenario_transfer : list transfer_row :=
  [{| t_Source_Well := "W05"; t_Destination_Well := "A1"; t_Volume := 500 |}].

Definition scenario_barcodes : list barcode_row :=
  [{| b_Well_Position := "C3"; b_Sequence_Name := "primerF03";
      b_Sequence := "AC GT"; b_Storage := "W05" |}].

Definition scenario_joined : joined_row :=
  {| j_Destination_Well := "A1"; j_Sequence := "ACGT"; j_Direction := Some "F"%char |}.


(** A barcode table whose sequence holds a tab. *)
Definition tabbed_barcodes : list barcode_row :=
  [{| b_Well_Position := "C3"; b_Sequence_Name := "primerF03";
      b_Sequence := String "A" (String "C" (String tab "GT")); b_Storage := "W05" |}].

(** * Properties *)

(** ** Outcomes *)

Lemma bind_Done {A B : Type} (c : outcome A) (k : A -> outcome B) (b : B) :
  bind c k = Done b -> exists a, c = Done a /\ k a = Done b.
Proof. destruct c as [a| |]; cbn; intros H; try discriminate. now exists a. Qed.

Lemma bind_Raise {A B : Type} (c : outcome A) (k : A -> outcome B) (exc : string) :
  bind c k = Raise exc ->
  c = Raise exc \/ exists a, c = Done a /\ k a = Raise exc.
Proof.
  destruct c as [a| |]; cbn; intros H; try discriminate.
  - right. now exists a.
  - left. congruence.
Qed.

Ltac bind_inv H :=
  let a := fresh "a" in
  let Ha := fresh "Ha" in
  apply bind_Done in H; destruct H as (a & Ha & H).

(** Evaluate a closed run [c] and name its result [st]. *)
Ltac run_done c st E :=
  let Hd := fresh "Hd" in
  assert (Hd : is_done c = true) by (vm_compute; reflexivity);
  destruct c as [st| |] eqn:E; [clear Hd|discriminate Hd|discriminate Hd].

Section EngineFacts.

Context {RS : RandomState}.
Variables fprimers rprimers : list string.
Variable volume_nl : Z.

Abbreviation F := (length fprimers).
Abbreviation R := (length rprimers).

Lemma randint_Done high g x g' :
  randint high g = Done (x, g') -> x < high /\ rng_below high g = (x, g').
Proof.
  unfold randint. destruct (Nat.eqb_spec high 0) as [->|Hne]; [discriminate|].
  intros H. injection H as H. split; [|exact H].
  pose proof (rng_below_lt high g ltac:(lia)) as Hlt. now rewrite H in Hlt.
Qed.

Lemma randint_pos high g : 0 < high -> randint high g = Done (rng_below high g).
Proof.
  intros Hpos. unfold randint. destruct (Nat.eqb_spec high 0); [lia|reflexivity].
Qed.

Lemma covered_true tup l : covered tup l = true <-> In tup l.
Proof. unfold covered. destruct (in_dec pair_eq_dec tup l); intuition congruence. Qed.

Lemma covered_false tup l : covered tup l = false <-> ~ In tup l.
Proof. unfold covered. destruct (in_dec pair_eq_dec tup l); intuition congruence. Qed.

(** *** What the loops return *)

Lemma reverse_loop_Done n ifwd irev g r g' :
  reverse_loop rprimers n ifwd irev g = Done (r, g') ->
  r <> ifwd /\ (r = irev \/ r < R).
Proof.
  revert irev g. induction n as [|n IH]; intros irev g; cbn [reverse_loop].
  - destruct (Nat.eqb_spec irev ifwd); [discriminate|].
    intros H. injection H as -> _. auto.
  - destruct (Nat.eqb_spec irev ifwd).
    + intros H. bind_inv H. destruct a as [r0 g0].
      apply randint_Done in Ha. apply IH in H. destruct H as [Hne [->|Hlt]]; intuition.
    + intros H. injection H as -> _. auto.
Qed.

Lemma draw_pair_Done fuel g f r g' :
  draw_pair fuel fprimers rprimers g = Done (f, r, g') -> valid_pair F R (f, r).
Proof.
  unfold draw_pair. intros H. bind_inv H. destruct a as [f0 g0].
  bind_inv H. destruct a as [r0 g1]. injection H as -> -> _.
  apply randint_Done in Ha. apply reverse_loop_Done in Ha0.
  unfold valid_pair; cbn. intuition.
Qed.

Lemma resample_loop_Done fuel n cov ifwd irev g f r g' :
  resample_loop fuel fprimers rprimers n cov ifwd irev g = Done (f, r, g') ->
  ~ In (f, r) cov /\ ((f, r) = (ifwd, irev) \/ valid_pair F R (f, r)).
Proof.
  revert ifwd irev g. induction n as [|n IH]; intros ifwd irev g; cbn [resample_loop].
  - destruct (covered (ifwd, irev) cov) eqn:Hc; [discriminate|].
    intros H. injection H as -> -> _. apply covered_false in Hc. auto.
  - destruct (covered (ifwd, irev) cov) eqn:Hc.
    + intros H. bind_inv H. destruct a as [[f0 r0] g0].
      apply draw_pair_Done in Ha. apply IH in H.
      destruct H as [Hnin [Heq|Hv]]; [|auto].
      injection Heq as -> ->. auto.
    + intros H. injection H as -> -> _. apply covered_false in Hc. auto.
Qed.

Lemma getitem_Done {A : Type} (l : list A) i x :
  getitem l i = Done x -> nth_error l i = Some x.
Proof. unfold getitem. destruct (nth_error l i); [congruence|discriminate]. Qed.

Lemma NoDup_snoc {A : Type} (l : list A) x : NoDup l -> ~ In x l -> NoDup (l ++ [x]).
Proof.
  intros Hnd Hnin. apply NoDup_app; [exact Hnd|repeat constructor; intros []|].
  intros a Ha [<-|[]]. contradiction.
Qed.

Lemma cell_body_invariant fuel done cell st st' :
  invariant fprimers rprimers volume_nl done st ->
  cell_body fuel fprimers rprimers volume_nl cell st = Done st' ->
  invariant fprimers rprimers volume_nl (done ++ [cell]) st' /\
  exists p, covered_list st' = covered_list st ++ [p].
Proof.
  intros [Hem Hnd Hval Hcur]. unfold cell_body. destruct cell as [row col].
  intros H. bind_inv H. destruct a as [[f r] g].
  apply resample_loop_Done in Ha. destruct Ha as [Hnin Hv].
  assert (Hv' : valid_pair F R (f, r)).
  { destruct Hv as [Heq|Hv]; [|exact Hv]. rewrite Heq. exact Hcur. }
  bind_inv H. bind_inv H. bind_inv H. injection H as <-.
  apply getitem_Done in Ha0, Ha1.
  split; [|eexists; reflexivity].
  constructor; cbn.
  - now apply emitted_snoc.
  - now apply NoDup_snoc.
  - apply Forall_app. split; [exact Hval|]. now constructor.
  - exact Hv'.
Qed.

Lemma cell_loop_invariant fuel cells : forall done st st',
  invariant fprimers rprimers volume_nl done st ->
  cell_loop fuel fprimers rprimers volume_nl cells st = Done st' ->
  invariant fprimers rprimers volume_nl (done ++ cells) st' /\
  exists ext, covered_list st' = covered_list st ++ ext /\ length ext = length cells.
Proof.
  induction cells as [|cell rest IH]; intros done st st' Hinv; cbn [cell_loop].
  - intros H. injection H as <-. rewrite !app_nil_r. split; [exact Hinv|].
    exists []. now rewrite app_nil_r.
  - intros H. bind_inv H.
    destruct (cell_body_invariant _ _ _ _ _ Hinv Ha) as [Hinv1 [p Hp]].
    destruct (IH _ _ _ Hinv1 H) as [Hinv2 (ext & Hext & Hlen)].
    rewrite <- app_assoc in Hinv2. split; [exact Hinv2|].
    exists (p :: ext). rewrite Hext, Hp, <- app_assoc. cbn. auto.
Qed.

Lemma assign_pairs_invariant fuel cells g st :
  assign_pairs fuel fprimers rprimers volume_nl cells g = Done st ->
  invariant fprimers rprimers volume_nl cells st /\ length (covered_list st) = length cells.
Proof.
  unfold assign_pairs. intros H. bind_inv H. destruct a as [[f r] g1].
  apply draw_pair_Done in Ha.
  eapply (cell_loop_invariant _ _ []) in H.
  - cbn in H. destruct H as [Hinv (ext & -> & Hlen)]. auto.
  - constructor; cbn; [constructor|constructor|constructor|exact Ha].
Qed.

End EngineFacts.

(** ** The iteration budget

    A result reached within a budget is reached, unchanged, within any
    larger one: the budget only cuts a run short. *)

Section Budget.

Context {RS : RandomState}.
Variables fprimers rprimers : list string.
Variable volume_nl : Z.

Lemma reverse_loop_mono n m ifwd : n <= m -> forall irev g x,
  reverse_loop rprimers n ifwd irev g = Done x ->
  reverse_loop rprimers m ifwd irev g = Done x.
Proof.
  revert m. induction n as [|n IH]; intros m Hle irev g x; cbn [reverse_loop].
  - destruct (Nat.eqb_spec irev ifwd) as [Heq|Hne]; [discriminate|].
    intros H. destruct m; cbn [reverse_loop];
      destruct (Nat.eqb_spec irev ifwd); congruence.
  - destruct m as [|m]; [lia|]. cbn [reverse_loop].
    destruct (irev =? ifwd); [|auto].
    intros H. bind_inv H. rewrite Ha. cbn [bind]. destruct a as [r g'].
    apply IH; [lia|exact H].
Qed.

Lemma draw_pair_mono fuel fuel' g x : fuel <= fuel' ->
  draw_pair fuel fprimers rprimers g = Done x ->
  draw_pair fuel' fprimers rprimers g = Done x.
Proof.
  intros Hle. unfold draw_pair. intros H. bind_inv H. rewrite Ha. cbn [bind].
  destruct a as [f g1]. bind_inv H.
  rewrite (reverse_loop_mono _ _ _ Hle _ _ _ Ha0). exact H.
Qed.

Lemma resample_loop_mono fuel fuel' n m cov : fuel <= fuel' -> n <= m ->
  forall ifwd irev g x,
  resample_loop fuel fprimers rprimers n cov ifwd irev g = Done x ->
  resample_loop fuel' fprimers rprimers m cov ifwd irev g = Done x.
Proof.
  intros Hfuel. revert m.
  induction n as [|n IH]; intros m Hle ifwd irev g x; cbn [resample_loop].
  - destruct (covered (ifwd, irev) cov) eqn:Hc; [discriminate|].
    intros H. destruct m; cbn [resample_loop]; now rewrite Hc.
  - destruct m as [|m]; [lia|]. cbn [resample_loop].
    destruct (covered (ifwd, irev) cov); [|auto].
    intros H. bind_inv H. rewrite (draw_pair_mono _ _ _ _ Hfuel Ha). cbn [bind].
    destruct a as [[f r] g']. apply IH; [lia|exact H].
Qed.

Lemma cell_body_mono fuel fuel' cell st x : fuel <= fuel' ->
  cell_body fuel fprimers rprimers volume_nl cell st = Done x ->
  cell_body fuel' fprimers rprimers volume_nl cell st = Done x.
Proof.
  intros Hle. unfold cell_body. destruct cell as [row col]. intros H. bind_inv H.
  rewrite (resample_loop_mono _ _ _ _ _ Hle Hle _ _ _ _ Ha). exact H.
Qed.

Lemma cell_loop_mono fuel fuel' cells : fuel <= fuel' -> forall st x,
  cell_loop fuel fprimers rprimers volume_nl cells st = Done x ->
  cell_loop fuel' fprimers rprimers volume_nl cells st = Done x.
Proof.
  intros Hle. induction cells as [|cell rest IH]; intros st x; cbn [cell_loop]; [auto|].
  intros H. bind_inv H. rewrite (cell_body_mono _ _ _ _ _ Hle Ha). cbn [bind]. auto.
Qed.

Lemma assign_pairs_mono fuel fuel' cells g x : fuel <= fuel' ->
  assign_pairs fuel fprimers rprimers volume_nl cells g = Done x ->
  assign_pairs fuel' fprimers rprimers volume_nl cells g = Done x.
Proof.
  intros Hle. unfold assign_pairs. intros H. bind_inv H.
  rewrite (draw_pair_mono _ _ _ _ Hle Ha). cbn [bind]. destruct a as [[f r] g1].
  now apply (cell_loop_mono fuel).
Qed.

Lemma cell_loop_app fuel cells1 cells2 st :
  cell_loop fuel fprimers rprimers volume_nl (cells1 ++ cells2) st =
  (st1 <- cell_loop fuel fprimers rprimers volume_nl cells1 st ;;
   cell_loop fuel fprimers rprimers volume_nl cells2 st1).
Proof.
  revert st. induction cells1 as [|cell rest IH]; intros st; cbn; [reflexivity|].
  destruct (cell_body fuel fprimers rprimers volume_nl cell st); cbn; auto.
Qed.

End Budget.

(** ** No exception from a run on non-empty pools *)

Lemma dest_label_Done row col : row < 26 -> exists lbl, dest_label row col = Done lbl.
Proof.
  intros Hlt. unfold dest_label.
  do 26 (destruct row as [|row]; [cbn; eauto|]). lia.
Qed.

Lemma getitem_lt {A : Type} (l : list A) i : i < length l -> exists x, getitem l i = Done x.
Proof.
  intros Hlt. unfold getitem. destruct (nth_error l i) eqn:E; [eauto|].
  apply nth_error_None in E. lia.
Qed.

Section NoRaise.

Context {RS : RandomState}.
Variables fprimers rprimers : list string.
Variable volume_nl : Z.
Hypothesis fprimers_nonempty : 0 < length fprimers.
Hypothesis rprimers_nonempty : 0 < length rprimers.

Lemma reverse_loop_no_raise n ifwd irev g exc :
  reverse_loop rprimers n ifwd irev g <> Raise exc.
Proof.
  revert irev g. induction n as [|n IH]; intros irev g; cbn [reverse_loop];
    destruct (irev =? ifwd); try discriminate.
  rewrite randint_pos by assumption. cbn [bind].
  destruct (rng_below (length rprimers) g). apply IH.
Qed.

Lemma draw_pair_no_raise fuel g exc :
  draw_pair fuel fprimers rprimers g <> Raise exc.
Proof.
  unfold draw_pair. rewrite randint_pos by assumption. cbn [bind].
  destruct (rng_below (length fprimers) g) as [f g1].
  destruct (reverse_loop rprimers fuel f f g1) as [[r g2]| |] eqn:E; cbn;
    try discriminate.
  intros H. injection H as ->. now apply reverse_loop_no_raise in E.
Qed.

Lemma resample_loop_no_raise fuel n cov ifwd irev g exc :
  resample_loop fuel fprimers rprimers n cov ifwd irev g <> Raise exc.
Proof.
  revert ifwd irev g. induction n as [|n IH]; intros ifwd irev g; cbn [resample_loop];
    destruct (covered (ifwd, irev) cov); try discriminate.
  destruct (draw_pair fuel fprimers rprimers g) as [[[f r] g']| |] eqn:E; cbn;
    try discriminate; [apply IH|].
  intros H. injection H as ->. now apply draw_pair_no_raise in E.
Qed.

Lemma cell_body_no_raise fuel done cell st exc :
  invariant fprimers rprimers volume_nl done st ->
  fst cell < 26 ->
  cell_body fuel fprimers rprimers volume_nl cell st <> Raise exc.
Proof.
  intros Hinv Hrow. unfold cell_body. destruct cell as [row col]. cbn in Hrow.
  destruct (resample_loop fuel fprimers rprimers fuel (covered_list st)
              (iforward st) (ireverse st) (rstate st)) as [[[f r] g]| |] eqn:E;
    cbn [bind]; try discriminate.
  - apply resample_loop_Done in E. destruct E as [_ Hv].
    assert (Hv' : valid_pair (length fprimers) (length rprimers) (f, r)).
    { destruct Hv as [Heq|Hv]; [|exact Hv]. rewrite Heq. apply Hinv. }
    destruct Hv' as (Hf & Hr & _). cbn in Hf, Hr.
    destruct (dest_label_Done row col Hrow) as [lbl ->].
    destruct (getitem_lt fprimers f Hf) as [fsrc ->].
    destruct (getitem_lt rprimers r Hr) as [rsrc ->].
    cbn. discriminate.
  - intros H. injection H as ->. now apply resample_loop_no_raise in E.
Qed.

Lemma cell_loop_no_raise fuel cells exc : forall done st,
  invariant fprimers rprimers volume_nl done st ->
  Forall (fun cell => fst cell < 26) cells ->
  cell_loop fuel fprimers rprimers volume_nl cells st <> Raise exc.
Proof.
  induction cells as [|cell rest IH]; intros done st Hinv Hrows; cbn [cell_loop];
    [discriminate|].
  inversion Hrows as [|? ? Hrow Hrest]; subst.
  destruct (cell_body fuel fprimers rprimers volume_nl cell st) as [st1| |] eqn:E;
    cbn [bind]; try discriminate.
  - destruct (cell_body_invariant _ _ _ _ _ _ _ _ Hinv E) as [Hinv1 _].
    now apply (IH _ _ Hinv1).
  - intros H. injection H as ->. now apply (cell_body_no_raise _ _ _ _ _ Hinv Hrow) in E.
Qed.

Lemma assign_pairs_no_raise fuel cells g exc :
  Forall (fun cell => fst cell < 26) cells ->
  assign_pairs fuel fprimers rprimers volume_nl cells g <> Raise exc.
Proof.
  intros Hrows. unfold assign_pairs.
  destruct (draw_pair fuel fprimers rprimers g) as [[[f r] g1]| |] eqn:E;
    cbn [bind]; try discriminate.
  - apply draw_pair_Done in E.
    apply (cell_loop_no_raise _ _ _ []); [|exact Hrows].
    constructor; cbn; [constructor|constructor|constructor|exact E].
  - intros H. injection H as ->. now apply draw_pair_no_raise in E.
Qed.

End NoRaise.

(** ** The usable pair space *)

Lemma all_pairs_valid F R p : In p (all_pairs F R) <-> valid_pair F R p.
Proof.
  unfold all_pairs, valid_pair, same_index. destruct p as [f r]. cbn [fst snd].
  rewrite filter_In, in_prod_iff, !in_seq, negb_true_iff, Nat.eqb_neq. cbn. lia.
Qed.

Lemma list_prod_app {A B : Type} (l1 l2 : list A) (l' : list B) :
  list_prod (l1 ++ l2) l' = list_prod l1 l' ++ list_prod l2 l'.
Proof.
  induction l1 as [|x l1 IH]; cbn; [reflexivity|]. now rewrite IH, app_assoc.
Qed.

Lemma diagonal_row a R :
  length (filter same_index (map (pair a) (seq 0 R))) = if a <? R then 1 else 0.
Proof.
  induction R as [|R IH]; [reflexivity|].
  rewrite seq_S, map_app, filter_app, length_app, IH. cbn [Nat.add map filter].
  unfold same_index at 1. cbn [fst snd].
  destruct (Nat.eqb_spec a R), (Nat.ltb_spec a R), (Nat.ltb_spec a (S R));
    cbn; lia.
Qed.

Lemma diagonal_length F R :
  length (filter same_index (list_prod (seq 0 F) (seq 0 R))) = Nat.min F R.
Proof.
  induction F as [|F IH]; [reflexivity|].
  rewrite seq_S, list_prod_app, filter_app, length_app, IH. cbn [Nat.add list_prod].
  rewrite app_nil_r, diagonal_row. destruct (Nat.ltb_spec F R); lia.
Qed.

Lemma all_pairs_length F R : length (all_pairs F R) = usable F R.
Proof.
  unfold all_pairs, usable.
  pose proof (filter_length same_index (list_prod (seq 0 F) (seq 0 R))) as H.
  rewrite length_prod, !length_seq, diagonal_length in H. lia.
Qed.

Lemma NoDup_list_prod {A B : Type} (l : list A) (l' : list B) :
  NoDup l -> NoDup l' -> NoDup (list_prod l l').
Proof.
  intros Hl Hl'. induction Hl as [|x l Hnin Hl IH]; cbn [list_prod]; [constructor|].
  apply NoDup_app.
  - apply Injective_map_NoDup; [|exact Hl']. intros b b' Heq. congruence.
  - exact IH.
  - intros [a b] Hin1 Hin2. apply in_map_iff in Hin1. destruct Hin1 as (b' & Heq & _).
    apply in_prod_iff in Hin2. injection Heq as <- _. tauto.
Qed.

Lemma all_pairs_NoDup F R : NoDup (all_pairs F R).
Proof. apply NoDup_filter, NoDup_list_prod; apply seq_NoDup. Qed.

(** A duplicate-free list of valid pairs fits in the usable pair space. *)
Lemma valid_pairs_bounded F R (l : list (nat * nat)) :
  NoDup l -> Forall (valid_pair F R) l -> length l <= usable F R.
Proof.
  intros Hnd Hval. rewrite <- all_pairs_length.
  apply NoDup_incl_length; [exact Hnd|].
  intros p Hin. apply all_pairs_valid. rewrite Forall_forall in Hval. auto.
Qed.

(** A run that returns has processed no more wells than the pair space
    holds. *)
Lemma assign_pairs_capacity {RS : RandomState} fuel fprimers rprimers volume_nl
    cells g st :
  assign_pairs fuel fprimers rprimers volume_nl cells g = Done st ->
  length cells <= usable (length fprimers) (length rprimers).
Proof.
  intros H. apply assign_pairs_invariant in H. destruct H as [Hinv Hlen].
  rewrite <- Hlen. apply valid_pairs_bounded; apply Hinv.
Qed.

Lemma plate_cells_rows nrows ncols :
  Forall (fun cell => fst cell < nrows) (plate_cells nrows ncols).
Proof.
  apply Forall_forall. intros [row col] Hin. unfold plate_cells in Hin.
  apply in_flat_map in Hin. destruct Hin as (row' & Hrow & Hin).
  apply in_map_iff in Hin. destruct Hin as (col' & Heq & _).
  injection Heq as <- _. apply in_seq in Hrow. cbn. lia.
Qed.

Lemma plate_cells_length nrows ncols : length (plate_cells nrows ncols) = nrows * ncols.
Proof.
  unfold plate_cells. generalize 0 at 2. induction nrows as [|n IH]; intros a; cbn; [reflexivity|].
  now rewrite length_app, length_map, length_seq, IH.
Qed.

(** ** What the three columns hold *)

Lemma evens_app {A : Type} (l l' : list A) :
  Nat.even (length l) = true -> evens (l ++ l') = evens l ++ evens l'.
Proof.
  remember (length l) as n eqn:Hn. revert l Hn.
  induction n as [n IH] using lt_wf_ind. intros l Hn Heven.
  destruct l as [|a [|b l]]; [reflexivity|subst; discriminate|].
  cbn [length] in Hn. subst n. cbn [app evens]. f_equal.
  apply (IH (length l)); [lia|reflexivity|exact Heven].
Qed.

Lemma nth_error_combine {A B : Type} (l : list A) (l' : list B) i a b :
  nth_error l i = Some a -> nth_error l' i = Some b ->
  nth_error (combine l l') i = Some (a, b).
Proof.
  revert l' i. induction l as [|x l IH]; intros [|y l'] [|i]; cbn; try discriminate.
  - congruence.
  - apply IH.
Qed.

Section Columns.

Variables fprimers rprimers : list string.
Variable volume_nl : Z.

Lemma emitted_lengths cells cov src dst vol :
  emitted fprimers rprimers volume_nl cells cov src dst vol ->
  length cov = length cells /\ length src = 2 * length cells /\
  length dst = 2 * length cells /\ length vol = 2 * length cells.
Proof.
  induction 1 as [|cells cov src dst vol row col f r lbl fsrc rsrc _ IH _ _ _].
  - cbn. auto.
  - rewrite !length_app. cbn [length]. lia.
Qed.

Lemma emitted_nth cells cov src dst vol :
  emitted fprimers rprimers volume_nl cells cov src dst vol ->
  forall i row col, nth_error cells i = Some (row, col) ->
  exists f r lbl fsrc rsrc,
    nth_error cov i = Some (f, r) /\
    dest_label row col = Done lbl /\
    nth_error fprimers f = Some fsrc /\
    nth_error rprimers r = Some rsrc /\
    nth_error src (2 * i) = Some fsrc /\
    nth_error src (2 * i + 1) = Some rsrc /\
    nth_error dst (2 * i) = Some lbl /\
    nth_error dst (2 * i + 1) = Some lbl /\
    nth_error vol (2 * i) = Some volume_nl /\
    nth_error vol (2 * i + 1) = Some volume_nl.
Proof.
  induction 1 as [|cells cov src dst vol row0 col0 f0 r0 lbl0 fsrc0 rsrc0 Hem IH Hl Hf Hr];
    intros i row col Hi.
  - destruct i; discriminate.
  - destruct (emitted_lengths _ _ _ _ _ Hem) as (Hc & Hs & Hd & Hv).
    destruct (Nat.lt_ge_cases i (length cells)) as [Hlt|Hge].
    + rewrite nth_error_app1 in Hi by exact Hlt.
      destruct (IH _ _ _ Hi) as (f & r & lbl & fsrc & rsrc & H).
      exists f, r, lbl, fsrc, rsrc.
      rewrite !nth_error_app1 by lia. exact H.
    + rewrite nth_error_app2 in Hi by exact Hge.
      destruct (i - length cells) as [|k] eqn:Hk; [|destruct k; discriminate].
      injection Hi as <- <-. assert (i = length cells) by lia. subst i.
      exists f0, r0, lbl0, fsrc0, rsrc0.
      rewrite !nth_error_app2 by lia.
      replace (length cells - length cov) with 0 by lia.
      replace (2 * length cells - length src) with 0 by lia.
      replace (2 * length cells + 1 - length src) with 1 by lia.
      replace (2 * length cells - length dst) with 0 by lia.
      replace (2 * length cells + 1 - length dst) with 1 by lia.
      replace (2 * length cells - length vol) with 0 by lia.
      replace (2 * length cells + 1 - length vol) with 1 by lia.
      cbn. auto 10.
Qed.

Lemma emitted_destinations cells cov src dst vol :
  emitted fprimers rprimers volume_nl cells cov src dst vol ->
  map Done (evens dst) = map (fun cell => dest_label (fst cell) (snd cell)) cells.
Proof.
  induction 1 as [|cells cov src dst vol row col f r lbl fsrc rsrc Hem IH Hl _ _].
  - reflexivity.
  - destruct (emitted_lengths _ _ _ _ _ Hem) as (_ & _ & Hd & _).
    rewrite evens_app.
    + rewrite !map_app, IH. cbn. now rewrite Hl.
    + rewrite Hd. clear. induction (length cells) as [|n IHn]; [reflexivity|].
      replace (2 * S n) with (S (S (2 * n))) by lia. exact IHn.
Qed.

End Columns.

(** ** Runs that cannot return *)

(** On non-empty pools a run over wells of the plate's rows that has not
    returned has not raised either: it is still looping. *)
Lemma assign_pairs_running {RS : RandomState} fuel fprimers rprimers volume_nl cells g :
  0 < length fprimers -> 0 < length rprimers ->
  Forall (fun cell => fst cell < 26) cells ->
  (forall st, assign_pairs fuel fprimers rprimers volume_nl cells g <> Done st) ->
  assign_pairs fuel fprimers rprimers volume_nl cells g = OutOfFuel.
Proof.
  intros HF HR Hrows Hnot.
  destruct (assign_pairs fuel fprimers rprimers volume_nl cells g) as [st|exc|] eqn:E.
  - now destruct (Hnot st).
  - now apply assign_pairs_no_raise in E.
  - reflexivity.
Qed.

Lemma assign_pairs_over_capacity {RS : RandomState} fuel fprimers rprimers volume_nl
    cells g :
  0 < length fprimers -> 0 < length rprimers ->
  Forall (fun cell => fst cell < 26) cells ->
  usable (length fprimers) (length rprimers) < length cells ->
  assign_pairs fuel fprimers rprimers volume_nl cells g = OutOfFuel.
Proof.
  intros HF HR Hrows Hcap. apply assign_pairs_running; try assumption.
  intros st Hrun. apply assign_pairs_capacity in Hrun. lia.
Qed.

(** ** Empty pools *)

Lemma slice_from_all {A : Type} (offset : Z) (l : list A) :
  (Z.of_nat (length l) <= offset)%Z -> slice_from offset l = [].
Proof.
  intros Hle. unfold slice_from. destruct (Z.ltb_spec offset 0); [lia|].
  apply skipn_all2. lia.
Qed.

Lemma assign_pairs_empty_pool {RS : RandomState} fuel fprimers rprimers volume_nl cells g :
  fprimers = [] \/ rprimers = [] ->
  assign_pairs (S fuel) fprimers rprimers volume_nl cells g = Raise "ValueError".
Proof.
  intros Hempty. unfold assign_pairs, draw_pair.
  destruct fprimers as [|x fp]; [reflexivity|].
  destruct Hempty as [Hf| ->]; [discriminate|].
  rewrite randint_pos by (cbn; lia). cbn [bind].
  destruct (rng_below (length (x :: fp)) g) as [f g1].
  cbn [reverse_loop]. now rewrite Nat.eqb_refl.
Qed.

(** ** Termination *)

(** A forward draw of 0 facing a reverse pool of one entry: the only
    reverse index there is equals it, so the inner loop never exits. *)
Lemma reverse_loop_stuck {RS : RandomState} rprimers n g :
  length rprimers = 1 -> reverse_loop rprimers n 0 0 g = OutOfFuel.
Proof.
  intros HR. revert g. induction n as [|n IH]; intros g; cbn [reverse_loop Nat.eqb];
    [reflexivity|].
  rewrite randint_pos by lia. cbn [bind].
  pose proof (rng_below_lt (length rprimers) g ltac:(lia)) as Hlt.
  destruct (rng_below (length rprimers) g) as [r g']. cbn [fst] in Hlt.
  assert (r = 0) by lia. subst r. apply IH.
Qed.

Lemma assign_pairs_stuck {RS : RandomState} fuel fprimers rprimers volume_nl cells g :
  0 < length fprimers -> length rprimers = 1 ->
  fst (rng_below (length fprimers) g) = 0 ->
  assign_pairs fuel fprimers rprimers volume_nl cells g = OutOfFuel.
Proof.
  intros HF HR Hzero. unfold assign_pairs, draw_pair.
  rewrite randint_pos by exact HF. cbn [bind].
  destruct (rng_below (length fprimers) g) as [f g1]. cbn [fst] in Hzero. subst f.
  now rewrite reverse_loop_stuck.
Qed.

Section Scripted.

Variables fprimers rprimers : list string.
Variable volume_nl : Z.

Lemma draw_pair_scripted f r (rest : list nat) :
  valid_pair (length fprimers) (length rprimers) (f, r) ->
  draw_pair (RS := tape) 1 fprimers rprimers (f :: r :: rest) = Done (f, r, rest).
Proof.
  intros (Hf & Hr & Hne). cbn [fst snd] in Hf, Hr, Hne.
  unfold draw_pair. rewrite randint_pos by lia. cbn [bind rng_below tape tape_below].
  rewrite (Nat.mod_small f) by exact Hf. cbn [reverse_loop]. rewrite Nat.eqb_refl.
  rewrite randint_pos by lia. cbn [bind rng_below tape tape_below].
  rewrite (Nat.mod_small r) by exact Hr. cbn [reverse_loop].
  destruct (Nat.eqb_spec r f); [congruence|reflexivity].
Qed.

End Scripted.

(** ** Runs that can always be completed

    The draws made so far are a finite script; the lemmas below extend
    any script so that the loop at hand exits, and state the result for
    every further extension, so that they compose along the run. *)

(** While the covered list is shorter than the usable pair space, some
    valid pair is not in it. *)
Lemma uncovered_pair F R (cov : list (nat * nat)) :
  length cov < usable F R -> exists p, valid_pair F R p /\ ~ In p cov.
Proof.
  intros Hlt.
  destruct (Exists_dec (fun p => ~ In p cov) (all_pairs F R)) as [Hex|Hnex].
  - intros p. destruct (in_dec pair_eq_dec p cov); [right; tauto|now left].
  - apply Exists_exists in Hex. destruct Hex as (p & Hp & Hnin).
    exists p. split; [now apply all_pairs_valid|exact Hnin].
  - exfalso.
    assert (Hincl : incl (all_pairs F R) cov).
    { intros p Hp. destruct (in_dec pair_eq_dec p cov) as [Hin|Hn]; [exact Hin|].
      exfalso. apply Hnex. apply Exists_exists. eauto. }
    pose proof (NoDup_incl_length (all_pairs_NoDup F R) Hincl) as Hle.
    rewrite all_pairs_length in Hle. lia.
Qed.

Lemma invariant_with_rstate {RS : RandomState} fprimers rprimers volume_nl done st g :
  invariant fprimers rprimers volume_nl done (with_rstate st g) <->
  invariant fprimers rprimers volume_nl done st.
Proof. split; intros [A B C D]; constructor; assumption. Qed.

Section Continuation.

Variables fprimers rprimers : list string.
Variable volume_nl : Z.
Hypothesis forward_entry : 1 <= length fprimers.
Hypothesis reverse_entries : 2 <= length rprimers.

Lemma tape_draw high x (t : list nat) : 0 < high ->
  randint (RS := tape) high (x :: t) = Done (x mod high, t).
Proof. intros H. now rewrite randint_pos by exact H. Qed.

Lemma reverse_loop_exit n ifwd irev (t : list nat) : irev <> ifwd ->
  reverse_loop (RS := tape) rprimers n ifwd irev t = Done (irev, t).
Proof.
  intros Hne. apply Nat.eqb_neq in Hne. destruct n; cbn [reverse_loop]; now rewrite Hne.
Qed.

Lemma reverse_loop_continues ifwd (t : list nat) : forall irev,
  exists suf r rest,
    length rest <= length t /\
    forall more n, length t + 1 <= n ->
      reverse_loop (RS := tape) rprimers n ifwd irev (t ++ suf ++ more)
        = Done (r, rest ++ more).
Proof.
  induction t as [|x t IH]; intros irev;
    (destruct (Nat.eq_dec irev ifwd) as [->|Hne];
      [|exists [], irev; eexists; split; [apply le_n|];
        intros more n _; now apply reverse_loop_exit]).
  - set (r0 := if ifwd =? 0 then 1 else 0).
    assert (Hr0 : r0 <> ifwd) by (unfold r0; destruct (Nat.eqb_spec ifwd 0); lia).
    assert (Hlt : r0 < length rprimers) by (unfold r0; destruct (ifwd =? 0); lia).
    exists [r0], r0, []. split; [apply le_n|]. intros more n Hn.
    destruct n as [|n]; [cbn in Hn; lia|].
    cbn [app reverse_loop]. rewrite Nat.eqb_refl, tape_draw by lia. cbn [bind].
    rewrite (Nat.mod_small r0) by exact Hlt. now apply reverse_loop_exit.
  - destruct (IH (x mod length rprimers)) as (suf & r & rest & Hlen & Hrun).
    exists suf, r, rest. split; [cbn [length]; lia|]. intros more n Hn.
    destruct n as [|n]; [cbn in Hn; lia|]. cbn [app reverse_loop].
    rewrite Nat.eqb_refl, tape_draw by lia. cbn [bind]. apply Hrun.
    cbn [length] in Hn. lia.
Qed.

Lemma draw_pair_continues (t : list nat) :
  exists suf f r rest,
    length rest <= length t - 1 /\
    forall more fuel, length t + 1 <= fuel ->
      draw_pair (RS := tape) fuel fprimers rprimers (t ++ suf ++ more)
        = Done (f, r, rest ++ more).
Proof.
  destruct t as [|x t].
  - exists [0; 1], 0, 1, []. split; [apply le_n|]. intros more fuel Hfuel.
    cbn [app]. apply (draw_pair_mono (RS := tape) fprimers rprimers 1); [cbn in Hfuel; lia|].
    apply draw_pair_scripted. unfold valid_pair. cbn [fst snd]. lia.
  - destruct (reverse_loop_continues (x mod length fprimers) t (x mod length fprimers))
      as (suf & r & rest & Hlen & Hrun).
    exists suf, (x mod length fprimers), r, rest. split; [cbn [length]; lia|].
    intros more fuel Hfuel. unfold draw_pair. cbn [app].
    rewrite tape_draw by lia. cbn [bind].
    rewrite Hrun by (cbn [length] in Hfuel; lia). reflexivity.
Qed.

Lemma resample_loop_exit fuel n cov ifwd irev (t : list nat) :
  covered (ifwd, irev) cov = false ->
  resample_loop (RS := tape) fuel fprimers rprimers n cov ifwd irev t = Done (ifwd, irev, t).
Proof. intros Hc. destruct n; cbn [resample_loop]; now rewrite Hc. Qed.

Lemma resample_loop_continues cov :
  (exists p, valid_pair (length fprimers) (length rprimers) p /\ ~ In p cov) ->
  forall L (t : list nat) ifwd irev, length t <= L ->
  exists suf f r rest,
    length rest <= length t /\
    forall more fuel n, length t + 1 <= fuel -> length t + 1 <= n ->
      resample_loop (RS := tape) fuel fprimers rprimers n cov ifwd irev (t ++ suf ++ more)
        = Done (f, r, rest ++ more).
Proof.
  intros ([pf pr] & Hp & Hnin) L.
  assert (Hempty : forall ifwd irev, covered (ifwd, irev) cov = true ->
            forall more fuel n, 1 <= fuel -> 1 <= n ->
              resample_loop (RS := tape) fuel fprimers rprimers n cov ifwd irev
                (pf :: pr :: more) = Done (pf, pr, more)).
  { intros ifwd irev Hc more fuel n Hfuel Hn. destruct n as [|n]; [lia|].
    cbn [resample_loop]. rewrite Hc.
    rewrite (draw_pair_mono (RS := tape) fprimers rprimers 1 fuel _ _ Hfuel
               (draw_pair_scripted fprimers rprimers pf pr more Hp)).
    cbn [bind]. apply resample_loop_exit. now apply covered_false. }
  induction L as [|L IH]; intros t ifwd irev HL;
    (destruct (covered (ifwd, irev) cov) eqn:Hc;
      [|exists [], ifwd, irev, t; split; [apply le_n|];
        intros more fuel n _ _; now apply resample_loop_exit]).
  - destruct t as [|x t]; [|cbn in HL; lia].
    exists [pf; pr], pf, pr, []. split; [apply le_n|]. intros more fuel n Hfuel Hn.
    apply (Hempty _ _ Hc); cbn in Hfuel, Hn; lia.
  - destruct t as [|x t].
    + exists [pf; pr], pf, pr, []. split; [apply le_n|]. intros more fuel n Hfuel Hn.
      apply (Hempty _ _ Hc); cbn in Hfuel, Hn; lia.
    + destruct (draw_pair_continues (x :: t)) as (suf1 & f1 & r1 & rest1 & Hlen1 & Hrun1).
      cbn [length] in Hlen1, HL.
      destruct (IH rest1 f1 r1 ltac:(lia)) as (suf2 & f & r & rest & Hlen2 & Hrun2).
      exists (suf1 ++ suf2), f, r, rest. split; [cbn [length]; lia|].
      intros more fuel n Hfuel Hn. cbn [length] in Hfuel, Hn.
      destruct n as [|n]; [lia|]. cbn [resample_loop]. rewrite Hc.
      rewrite <- (app_assoc suf1 suf2 more).
      rewrite Hrun1 by (cbn [length]; lia). cbn [bind]. apply Hrun2; lia.
Qed.

Lemma cell_body_continues done cell (st : locals (RS := tape)) :
  invariant fprimers rprimers volume_nl done st ->
  length (covered_list st) < usable (length fprimers) (length rprimers) ->
  fst cell < 26 ->
  exists suf (st' : locals (RS := tape)),
    length (rstate st') <= length (rstate st) /\
    invariant fprimers rprimers volume_nl (done ++ [cell]) st' /\
    length (covered_list st') = S (length (covered_list st)) /\
    forall more fuel, length (rstate st) + 1 <= fuel ->
      cell_body fuel fprimers rprimers volume_nl cell
        (with_rstate st (rstate st ++ suf ++ more))
      = Done (with_rstate st' (rstate st' ++ more)).
Proof.
  intros Hinv Hroom Hrow. destruct cell as [row col]. cbn [fst] in Hrow.
  destruct (resample_loop_continues (covered_list st) (uncovered_pair _ _ _ Hroom)
              (length (rstate st)) (rstate st) (iforward st) (ireverse st) (le_n _))
    as (suf & f & r & rest & Hlen & Hrun).
  assert (Hv : valid_pair (length fprimers) (length rprimers) (f, r) /\
               ~ In (f, r) (covered_list st)).
  { pose proof (Hrun [] _ _ (le_n _) (le_n _)) as H0.
    apply (resample_loop_Done (RS := tape)) in H0. destruct H0 as [Hnin [Heq|Hv]]; [|auto].
    split; [|exact Hnin]. rewrite Heq. apply Hinv. }
  destruct Hv as [(Hfb & Hrb & Hne) Hnin]. cbn [fst snd] in Hfb, Hrb, Hne.
  destruct (dest_label_Done row col Hrow) as [lbl Hl].
  destruct (getitem_lt fprimers f Hfb) as [fsrc Hf].
  destruct (getitem_lt rprimers r Hrb) as [rsrc Hr].
  set (st1 := @Build_locals tape (sourcewells st ++ [fsrc; rsrc])
                (destwells st ++ [lbl; lbl]) (vols st ++ [volume_nl; volume_nl])
                (covered_list st ++ [(f, r)]) f r rest).
  exists suf, st1. split; [exact Hlen|].
  assert (Hbody : forall more fuel, length (rstate st) + 1 <= fuel ->
            cell_body fuel fprimers rprimers volume_nl (row, col)
              (with_rstate st (rstate st ++ suf ++ more))
            = Done (with_rstate st1 (rest ++ more))).
  { intros more fuel Hfuel. unfold cell_body, with_rstate.
    cbn [covered_list iforward ireverse rstate sourcewells destwells vols].
    rewrite Hrun by exact Hfuel. cbn [bind]. rewrite Hl. cbn [bind].
    rewrite Hf. cbn [bind]. rewrite Hr. reflexivity. }
  split; [|split; [|exact Hbody]].
  - pose proof (Hbody [] _ (le_n _)) as H0.
    apply (cell_body_invariant (RS := tape) fprimers rprimers volume_nl _ done) in H0.
    + destruct H0 as [H0 _]. now apply invariant_with_rstate in H0.
    + now apply invariant_with_rstate.
  - cbn [st1 covered_list]. rewrite length_app. cbn [length]. lia.
Qed.

Lemma cell_loop_continues cells : forall done (st : locals (RS := tape)),
  invariant fprimers rprimers volume_nl done st ->
  length (covered_list st) + length cells <= usable (length fprimers) (length rprimers) ->
  Forall (fun cell => fst cell < 26) cells ->
  exists suf (st' : locals (RS := tape)),
    forall more fuel, length (rstate st) + 1 <= fuel ->
      cell_loop fuel fprimers rprimers volume_nl cells
        (with_rstate st (rstate st ++ suf ++ more))
      = Done (with_rstate st' (rstate st' ++ more)).
Proof.
  induction cells as [|cell cells IH]; intros done st Hinv Hroom Hrows.
  - exists [], st. intros more fuel _. reflexivity.
  - inversion Hrows as [|? ? Hrow Hrows']; subst. cbn [length] in Hroom.
    destruct (cell_body_continues done cell st Hinv ltac:(lia) Hrow)
      as (suf1 & st1 & Hlen1 & Hinv1 & Hcov1 & Hrun1).
    destruct (IH _ st1 Hinv1 ltac:(lia) Hrows') as (suf2 & st2 & Hrun2).
    exists (suf1 ++ suf2), st2. intros more fuel Hfuel. cbn [cell_loop].
    rewrite <- (app_assoc suf1 suf2 more).
    rewrite Hrun1 by exact Hfuel. cbn [bind]. apply Hrun2. lia.
Qed.

(** On a forward pool of at least one entry and a reverse pool of at
    least two, with room for every well, no sequence of draws ends the
    hope of a result: whatever has been drawn so far, the run returns on
    some continuation of the draws. *)
Lemma assign_pairs_continues cells (pre : list nat) :
  length cells <= usable (length fprimers) (length rprimers) ->
  Forall (fun cell => fst cell < 26) cells ->
  exists suf st,
    forall fuel, length pre + 1 <= fuel ->
      assign_pairs (RS := tape) fuel fprimers rprimers volume_nl cells (pre ++ suf)
        = Done st.
Proof.
  intros Hroom Hrows.
  destruct (draw_pair_continues pre) as (suf1 & f & r & rest & Hlen1 & Hrun1).
  assert (Hv : valid_pair (length fprimers) (length rprimers) (f, r)).
  { pose proof (Hrun1 [] _ (le_n _)) as H0. now apply (draw_pair_Done (RS := tape)) in H0. }
  set (st0 := @Build_locals tape [] [] [] [] f r rest).
  destruct (cell_loop_continues cells [] st0) as (suf2 & st2 & Hrun2).
  - constructor; cbn; [constructor|constructor|constructor|exact Hv].
  - cbn [st0 covered_list length]. lia.
  - exact Hrows.
  - exists (suf1 ++ suf2), (with_rstate st2 (rstate st2 ++ [])). intros fuel Hfuel.
    unfold assign_pairs.
    rewrite <- (app_nil_r (suf1 ++ suf2)), <- (app_assoc suf1 suf2 []).
    rewrite Hrun1 by exact Hfuel. cbn [bind].
    apply (Hrun2 [] fuel). cbn [st0 rstate]. lia.
Qed.

End Continuation.

(** A source that keeps drawing 0 never gets out of the loop
    [while ireverse == iforward], whatever the pools. *)
Lemma reverse_loop_all_zero rprimers n :
  0 < length rprimers -> reverse_loop (RS := tape) rprimers n 0 0 [] = OutOfFuel.
Proof.
  intros HR. induction n as [|n IH]; cbn [reverse_loop Nat.eqb]; [reflexivity|].
  now rewrite randint_pos by exact HR.
Qed.

Lemma assign_pairs_all_zero fuel fprimers rprimers volume_nl cells :
  0 < length fprimers -> 0 < length rprimers ->
  assign_pairs (RS := tape) fuel fprimers rprimers volume_nl cells [] = OutOfFuel.
Proof.
  intros HF HR. unfold assign_pairs, draw_pair. rewrite randint_pos by exact HF.
  cbn [bind rng_below tape tape_below]. now rewrite reverse_loop_all_zero.
Qed.

(** ** The labels of the wells *)

Lemma dest_label_cell row col lbl :
  dest_label row col = Done lbl -> row < 26 /\ lbl = cell_label (row, col).
Proof.
  unfold dest_label, cell_label. cbn [fst snd].
  do 26 (destruct row as [|row];
         [cbn; intros H; injection H as <-; split; [lia|reflexivity]|]).
  cbn. discriminate.
Qed.

Lemma labels_of_cells cells : forall lbls,
  map Done lbls = map (fun cell => dest_label (fst cell) (snd cell)) cells ->
  lbls = map cell_label cells.
Proof.
  induction cells as [|[row col] cells IH]; intros [|lbl lbls] H; try discriminate;
    [reflexivity|].
  cbn [map fst snd] in H. injection H as Hl H. symmetry in Hl.
  apply dest_label_cell in Hl. destruct Hl as [_ ->]. cbn [map]. f_equal. now apply IH.
Qed.

(** ** The records of a returning run *)

Lemma assign_pairs_records {RS : RandomState} fprimers rprimers volume_nl cells
    fuel g st :
  assign_pairs fuel fprimers rprimers volume_nl cells g = Done st ->
  length (records (frame_of st)) = 2 * length cells /\
  (forall i cell, nth_error cells i = Some cell ->
     exists f r fsrc rsrc,
       nth_error (covered_list st) i = Some (f, r) /\
       nth_error fprimers f = Some fsrc /\
       nth_error rprimers r = Some rsrc /\
       nth_error (records (frame_of st)) (2 * i)
         = Some (fsrc, cell_label cell, volume_nl) /\
       nth_error (records (frame_of st)) (2 * i + 1)
         = Some (rsrc, cell_label cell, volume_nl)) /\
  evens (Destination_Well (frame_of st)) = map cell_label cells.
Proof.
  intros Hrun.
  apply assign_pairs_invariant in Hrun. destruct Hrun as [[Hem _ _ _] _].
  destruct (emitted_lengths _ _ _ _ _ _ _ _ Hem) as (_ & Hs & Hd & Hv).
  unfold records, frame_of. cbn [Source_Well Destination_Well Volume].
  split; [|split].
  - rewrite !length_combine. lia.
  - intros i [row col] Hi.
    destruct (emitted_nth _ _ _ _ _ _ _ _ Hem _ _ _ Hi)
      as (f & r & lbl & fsrc & rsrc & H1 & H2 & H3 & H4 & H5 & H6 & H7 & H8 & H9 & H10).
    apply dest_label_cell in H2. destruct H2 as [_ ->].
    exists f, r, fsrc, rsrc.
    repeat split; try assumption; repeat apply nth_error_combine; assumption.
  - apply labels_of_cells. exact (emitted_destinations _ _ _ _ _ _ _ _ Hem).
Qed.

(** ** A reverse pool of one entry on the plate *)

Lemma one_reverse_pools :
  sample_primers one_reverse_generator default_offset
    = Done (one_reverse_fprimers, one_reverse_rprimers) /\
  length one_reverse_fprimers = 385 /\ length one_reverse_rprimers = 1 /\
  length (plate_cells 16 24) = usable 385 1.
Proof. repeat split; vm_compute; reflexivity. Qed.

Lemma one_reverse_stuck {RS : RandomState} fuel (g : rng) :
  fst (rng_below 385 g) = 0 ->
  assign_pairs fuel one_reverse_fprimers one_reverse_rprimers 500 (plate_cells 16 24) g
    = OutOfFuel.
Proof.
  intros Hzero. destruct one_reverse_pools as (_ & HF & HR & _).
  apply assign_pairs_stuck; rewrite ?HF; [lia|exact HR|exact Hzero].
Qed.

(** ** The pool partitioner *)

Lemma map_seq_S {B : Type} (f : nat -> B) n :
  map f (seq 0 (S n)) = f 0 :: map (fun j => f (S j)) (seq 0 n).
Proof. cbn. now rewrite <- seq_shift, map_map. Qed.

Lemma evens_nth {A : Type} (d : A) (l : list A) :
  evens l = map (fun j => nth (2 * j) l d) (seq 0 ((length l + 1) / 2)).
Proof.
  remember (length l) as n eqn:Hn. revert l Hn.
  induction n as [n IH] using lt_wf_ind. intros l Hn.
  destruct l as [|a [|b l]]; subst n; [reflexivity|reflexivity|].
  cbn [length evens].
  replace (S (S (length l)) + 1) with (length l + 1 + 1 * 2) by lia.
  rewrite Nat.div_add by lia. rewrite Nat.add_1_r, map_seq_S. cbn [Nat.mul nth]. f_equal.
  rewrite (IH (length l)) by (cbn; lia).
  apply map_ext. intros j. now replace (S j + (S j + 0)) with (S (S (2 * j))) by lia.
Qed.

Lemma odds_nth {A : Type} (d : A) (l : list A) :
  odds l = map (fun j => nth (2 * j + 1) l d) (seq 0 (length l / 2)).
Proof.
  unfold odds. destruct l as [|a l]; [reflexivity|].
  cbn [tl length]. rewrite (evens_nth d). rewrite Nat.add_1_r.
  apply map_ext. intros j. now rewrite Nat.add_1_r.
Qed.

Lemma half_even n : Nat.even n = true -> (n + 1) / 2 = n / 2.
Proof.
  intros He. apply Nat.even_spec in He. destruct He as [k ->].
  replace (2 * k + 1) with (1 + k * 2) by lia. rewrite Nat.div_add by lia.
  replace (2 * k) with (0 + k * 2) by lia. now rewrite Nat.div_add by lia.
Qed.

Lemma half_lt n i : Nat.even n = true -> i < n / 2 -> 2 * i + 1 < n.
Proof.
  intros He Hi. apply Nat.even_spec in He. destruct He as [k ->].
  replace (2 * k) with (0 + k * 2) in Hi by lia. rewrite Nat.div_add in Hi by lia.
  cbn in Hi. lia.
Qed.

Lemma flat_map_length_const {A B : Type} (f : A -> list B) (l : list A) k :
  (forall a, length (f a) = k) -> length (flat_map f l) = length l * k.
Proof.
  intros Hf. induction l as [|a l IH]; cbn; [reflexivity|].
  now rewrite length_app, IH, Hf.
Qed.

Lemma parity_cells_length gr nrows ncols parity :
  length (parity_cells gr nrows ncols parity) = (nrows / 2) * (ncols / 2).
Proof.
  unfold parity_cells. rewrite (flat_map_length_const _ _ (ncols / 2)).
  - now rewrite length_seq.
  - intros i. now rewrite length_map, length_seq.
Qed.

Section Partition.

Variable gr : grid.
Variables nrows ncols : nat.
Hypothesis grid_rows : length gr = nrows.
Hypothesis grid_cols : Forall (fun row => length row = ncols) gr.
Hypothesis even_rows : Nat.even nrows = true.
Hypothesis even_cols : Nat.even ncols = true.

Lemma row_length i : i < nrows -> length (nth i gr []) = ncols.
Proof.
  intros Hi. rewrite Forall_forall in grid_cols. apply grid_cols, nth_In. lia.
Qed.

Lemma forward_pool_cells :
  concat (map evens (evens gr)) = parity_cells gr nrows ncols 0.
Proof.
  unfold parity_cells. rewrite flat_map_concat_map. f_equal.
  rewrite (evens_nth [] gr), grid_rows, half_even by exact even_rows.
  rewrite map_map. apply map_ext_in. intros i Hi. apply in_seq in Hi.
  pose proof (half_lt nrows i even_rows ltac:(lia)) as Hlt.
  rewrite (evens_nth "" (nth (2 * i) gr [])), row_length by lia.
  rewrite half_even by exact even_cols.
  apply map_ext. intros j. unfold cell_at. now rewrite !Nat.add_0_r.
Qed.

Lemma reverse_pool_cells :
  concat (map odds (odds gr)) = parity_cells gr nrows ncols 1.
Proof.
  unfold parity_cells. rewrite flat_map_concat_map. f_equal.
  rewrite (odds_nth [] gr), grid_rows.
  rewrite map_map. apply map_ext_in. intros i Hi. apply in_seq in Hi.
  pose proof (half_lt nrows i even_rows ltac:(lia)) as Hlt.
  rewrite (odds_nth "" (nth (2 * i + 1) gr [])), row_length by lia.
  reflexivity.
Qed.

End Partition.

Lemma slice_from_nonneg {A : Type} (offset : Z) (l : list A) :
  (0 <= offset)%Z ->
  slice_from offset l = skipn (Z.to_nat offset) l.
Proof. intros Hle. unfold slice_from. destruct (Z.ltb_spec offset 0); [lia|reflexivity]. Qed.

(** ** The role tag of the barcode join *)

Lemma digits_then_end_all_digits ds : all_digits ds = true -> digits_then_end ds = true.
Proof.
  induction ds as [|c ds IH]; [reflexivity|]. cbn [all_digits digits_then_end].
  intros H. apply andb_true_iff in H. destruct H as [Hc Hds].
  rewrite Hc, (IH Hds). apply orb_true_r.
Qed.

Lemma ends_with_newline_app pre c ds :
  all_digits ds = true ->
  ends_with_newline (pre ++ String c ds) = false ->
  c <> newline \/ ds <> EmptyString.
Proof.
  intros Hds Hend. destruct ds as [|d ds]; [left|right; discriminate].
  intros ->. induction pre as [|p pre IH]; cbn in Hend; [discriminate|].
  destruct (pre ++ String newline "")%string eqn:E; [destruct pre; discriminate|].
  now apply IH.
Qed.

(** No match starts before the last non-digit character. *)
Lemma no_earlier_match mid c ds :
  is_digit c = false ->
  c <> newline \/ ds <> EmptyString ->
  digits_then_end (mid ++ String c ds) = false.
Proof.
  intros Hc Hend. induction mid as [|m mid IH].
  - cbn [String.append digits_then_end]. rewrite Hc. cbn [andb]. rewrite orb_false_r.
    cbn [at_end]. destruct ds as [|d ds]; [|reflexivity].
    destruct Hend as [Hne|Hne]; [|congruence].
    now apply Ascii.eqb_neq.
  - cbn [String.append digits_then_end]. rewrite IH, andb_false_r, orb_false_r.
    cbn [at_end]. destruct mid; reflexivity.
Qed.

Lemma extract_direction_last pre c ds :
  is_digit c = false -> all_digits ds = true ->
  c <> newline \/ ds <> EmptyString ->
  extract_direction (pre ++ String c ds) = Some c.
Proof.
  intros Hc Hds Hend. induction pre as [|p pre IH].
  - cbn [String.append extract_direction].
    now rewrite Hc, digits_then_end_all_digits.
  - cbn [String.append extract_direction].
    now rewrite no_earlier_match, andb_false_r.
Qed.

Lemma remove_spaces_filter s :
  list_ascii_of_string (remove_spaces s) =
  filter (fun c => negb (Ascii.eqb c " "%char)) (list_ascii_of_string s).
Proof.
  induction s as [|c s IH]; [reflexivity|]. cbn [remove_spaces list_ascii_of_string filter].
  destruct (Ascii.eqb c " "%char); cbn [negb list_ascii_of_string]; now rewrite IH.
Qed.

(** ** The function on the default plate *)

(** A call that returns is a pair-assignment run over the 16 x 24 plate
    on the pools trimmed by the default offset, started from the seeded
    state or from the global one. *)
Lemma generate_transfer_df_Done {RS : RandomState} fuel self volume_nl use_seed g out :
  generate_transfer_df fuel self volume_nl use_seed g = Done out ->
  exists st,
    assign_pairs fuel (slice_from default_offset (fprimers_full self))
      (slice_from default_offset (rprimers_full self)) volume_nl (plate_cells 16 24)
      (if use_seed then rng_seed (randseed self) else g) = Done st /\
    out = (frame_of st, rstate st).
Proof.
  unfold generate_transfer_df, sample_primers. cbn [bind]. intros H.
  bind_inv H. bind_inv H. injection H as <-. exists a0. split; [|reflexivity].
  destruct use_seed; [|congruence].
  unfold random_seed in Ha. destruct (_ && _)%bool; [|discriminate]. congruence.
Qed.

(** The default generator, seeded: 768 records, from well A1 to well
    P24. *)
Lemma default_plate_run :
  match generate_transfer_df (RS := lcg) 50 (default_generator 7) 500 true 0%Z with
  | Done (df, _) =>
      (length (records df), hd "" (Destination_Well df), last (Destination_Well df) "")
  | _ => (0, "", "")
  end = (768, "A1", "P24").
Proof. vm_compute. reflexivity. Qed.

(** * The claims *)

(** C1 -- global pair uniqueness. For every run of the pair-assignment
    loop that returns, over any sequence of destination wells, the
    recorded pair keys are pairwise distinct and there is exactly one per
    well; moreover the run over the first [k] wells returns with exactly
    the first [k] of those keys, so the covered list holds [k] entries
    after [k] wells. *)
Theorem covered_pairs_distinct {RS : RandomState} fuel fprimers rprimers volume_nl
    cells g st :
  assign_pairs fuel fprimers rprimers volume_nl cells g = Done st ->
  NoDup (covered_list st) /\
  length (covered_list st) = length cells /\
  forall k, k <= length cells ->
    exists st_k,
      assign_pairs fuel fprimers rprimers volume_nl (firstn k cells) g = Done st_k /\
      covered_list st_k = firstn k (covered_list st) /\
      length (covered_list st_k) = k.
Proof.
  intros Hrun. pose proof (assign_pairs_invariant _ _ _ _ _ _ _ Hrun) as [Hinv Hlen].
  split; [apply Hinv|]. split; [exact Hlen|].
  intros k Hk. unfold assign_pairs in Hrun |- *.
  bind_inv Hrun. rewrite Ha. cbn [bind]. destruct a as [[f r] g1].
  rewrite <- (firstn_skipn k cells), cell_loop_app in Hrun at 1.
  bind_inv Hrun. exists a. split; [exact Ha0|].
  apply draw_pair_Done in Ha.
  eapply (cell_loop_invariant _ _ _ _ _ []) in Ha0 as [Hinv1 (ext1 & Hext1 & Hlen1)];
    [|constructor; cbn; [constructor|constructor|constructor|exact Ha]].
  eapply cell_loop_invariant in Hrun as [_ (ext2 & Hext2 & _)]; [|exact Hinv1].
  cbn in Hext1. rewrite length_firstn in Hlen1.
  assert (Hlenk : length (covered_list a) = k) by (rewrite Hext1; lia).
  split; [|exact Hlenk].
  rewrite Hext2, firstn_app, Hlenk, Nat.sub_diag, firstn_O, app_nil_r.
  rewrite <- Hlenk at 1. now rewrite firstn_all.
Qed.

Lemma covered_pairs_distinct_witness :
  exists st,
    assign_pairs (RS := lcg) 20 demo_fprimers demo_rprimers 500 demo_cells 7%Z = Done st /\
    NoDup (covered_list st) /\
    length (covered_list st) = length demo_cells /\
    forall k, k <= length demo_cells ->
      exists st_k,
        assign_pairs (RS := lcg) 20 demo_fprimers demo_rprimers 500
          (firstn k demo_cells) 7%Z = Done st_k /\
        covered_list st_k = firstn k (covered_list st) /\
        length (covered_list st_k) = k.
Proof.
  run_done (assign_pairs (RS := lcg) 20 demo_fprimers demo_rprimers 500 demo_cells 7%Z)
           st E.
  exists st. split; [reflexivity|].
  exact (covered_pairs_distinct (RS := lcg) 20 demo_fprimers demo_rprimers 500
           demo_cells 7%Z st E).
Defined.

(** C2 -- capacity guard, as the code has it. The function has no
    capacity check and no [CapacityError]: on non-empty pools whose
    usable pair space is smaller than the number of wells, the first
    forward draw is made, and the run then raises nothing and never
    returns, whatever the iteration budget, so no record is produced. *)
Theorem no_capacity_guard {RS : RandomState} fuel fprimers rprimers volume_nl cells g :
  0 < length fprimers -> 0 < length rprimers ->
  Forall (fun cell => fst cell < 26) cells ->
  usable (length fprimers) (length rprimers) < length cells ->
  randint (length fprimers) g = Done (rng_below (length fprimers) g) /\
  assign_pairs fuel fprimers rprimers volume_nl cells g = OutOfFuel /\
  (forall exc, assign_pairs fuel fprimers rprimers volume_nl cells g <> Raise exc) /\
  (forall st, assign_pairs fuel fprimers rprimers volume_nl cells g <> Done st).
Proof.
  intros HF HR Hrows Hcap.
  split; [now apply randint_pos|].
  rewrite assign_pairs_over_capacity by assumption.
  split; [reflexivity|]. split; intros x; discriminate.
Qed.

Lemma no_capacity_guard_witness :
  randint (RS := lcg) (length ["A13"; "A15"]) 7%Z
    = Done (rng_below (RandomState := lcg) (length ["A13"; "A15"]) 7%Z) /\
  assign_pairs (RS := lcg) 30 ["A13"; "A15"] ["B14"; "B16"] 500 (plate_cells 1 5) 7%Z
    = OutOfFuel /\
  (forall exc,
     assign_pairs (RS := lcg) 30 ["A13"; "A15"] ["B14"; "B16"] 500 (plate_cells 1 5) 7%Z
       <> Raise exc) /\
  (forall st,
     assign_pairs (RS := lcg) 30 ["A13"; "A15"] ["B14"; "B16"] 500 (plate_cells 1 5) 7%Z
       <> Done st).
Proof.
  apply (no_capacity_guard (RS := lcg) 30 ["A13"; "A15"] ["B14"; "B16"] 500
           (plate_cells 1 5) 7%Z).
  - cbn. lia.
  - cbn. lia.
  - eapply Forall_impl; [|apply (plate_cells_rows 1 5)]. cbn. intros cell Hlt. lia.
  - vm_compute. lia.
Defined.

(** The example of two forward and two reverse entries with five wells,
    for any random source and any state of it: the first forward draw is
    made, and the run then loops for ever; it never fails with
    [CapacityError]. *)
Lemma capacity_guard_absent :
  usable 2 2 < length (plate_cells 1 5) /\
  forall (RS : RandomState) fuel (g : rng),
    randint (length ["A13"; "A15"]) g = Done (rng_below 2 g) /\
    assign_pairs fuel ["A13"; "A15"] ["B14"; "B16"] 500 (plate_cells 1 5) g = OutOfFuel /\
    assign_pairs fuel ["A13"; "A15"] ["B14"; "B16"] 500 (plate_cells 1 5) g
      <> Raise "CapacityError".
Proof.
  split; [vm_compute; lia|]. intros RS fuel g.
  assert (Hrun : assign_pairs fuel ["A13"; "A15"] ["B14"; "B16"] 500 (plate_cells 1 5) g
                 = OutOfFuel).
  { apply assign_pairs_over_capacity.
    - cbn. lia.
    - cbn. lia.
    - eapply Forall_impl; [|apply (plate_cells_rows 1 5)]. cbn. intros cell Hlt. lia.
    - vm_compute. lia. }
  split; [reflexivity|]. split; [exact Hrun|]. rewrite Hrun. discriminate.
Qed.

(** C3 -- self-pair exclusion. In every pair recorded by a run that
    returns, the reverse index differs from the forward index. The test
    is on the raw indices: nothing in it looks at the labels the two
    pools hold. *)
Theorem no_self_pair {RS : RandomState} fuel fprimers rprimers volume_nl cells g st :
  assign_pairs fuel fprimers rprimers volume_nl cells g = Done st ->
  Forall (fun p => snd p <> fst p) (covered_list st).
Proof.
  intros Hrun. apply assign_pairs_invariant in Hrun. destruct Hrun as [Hinv _].
  eapply Forall_impl; [|apply Hinv]. intros p (_ & _ & Hne). auto.
Qed.

Lemma no_self_pair_witness :
  exists st,
    assign_pairs (RS := lcg) 20 demo_fprimers demo_fprimers 500 demo_cells 3%Z = Done st /\
    Forall (fun p => snd p <> fst p) (covered_list st).
Proof.
  run_done (assign_pairs (RS := lcg) 20 demo_fprimers demo_fprimers 500 demo_cells 3%Z)
           st E.
  exists st. split; [reflexivity|].
  exact (no_self_pair (RS := lcg) 20 demo_fprimers demo_fprimers 500 demo_cells 3%Z st E).
Defined.

(** C4 -- determinism. With [use_seed] set, two invocations on the same
    generator (seed and pools) and volume return the same frame and leave
    the same random state, whatever numpy's global state was at either
    call and whatever iteration budget either run was given: the source
    is seeded from [randseed] before the first draw, and the result is
    the pair-assignment run started from that seeded state. *)
Theorem seeded_runs_agree {RS : RandomState} fuel1 fuel2 self volume_nl g1 g2 out1 out2 :
  generate_transfer_df fuel1 self volume_nl true g1 = Done out1 ->
  generate_transfer_df fuel2 self volume_nl true g2 = Done out2 ->
  out1 = out2 /\
  exists st,
    assign_pairs fuel1 (slice_from default_offset (fprimers_full self))
      (slice_from default_offset (rprimers_full self)) volume_nl
      (plate_cells 16 24) (rng_seed (randseed self)) = Done st /\
    out1 = (frame_of st, rstate st).
Proof.
  intros H1 H2.
  apply generate_transfer_df_Done in H1, H2.
  destruct H1 as (st1 & Hrun1 & ->). destruct H2 as (st2 & Hrun2 & ->).
  split; [|now exists st1].
  apply (assign_pairs_mono _ _ _ fuel1 (Nat.max fuel1 fuel2)) in Hrun1; [|lia].
  apply (assign_pairs_mono _ _ _ fuel2 (Nat.max fuel1 fuel2)) in Hrun2; [|lia].
  congruence.
Qed.

Lemma seeded_runs_agree_witness :
  exists out1 out2,
    generate_transfer_df (RS := lcg) 50 (default_generator 7) 500 true 0%Z = Done out1 /\
    generate_transfer_df (RS := lcg) 60 (default_generator 7) 500 true 99%Z = Done out2 /\
    out1 = out2 /\
    exists st,
      assign_pairs (RS := lcg) 50
        (slice_from default_offset (fprimers_full (default_generator 7)))
        (slice_from default_offset (rprimers_full (default_generator 7))) 500
        (plate_cells 16 24) (rng_seed (randseed (default_generator 7))) = Done st /\
      out1 = (frame_of st, rstate st).
Proof.
  run_done (generate_transfer_df (RS := lcg) 50 (default_generator 7) 500 true 0%Z)
           out1 E1.
  run_done (generate_transfer_df (RS := lcg) 60 (default_generator 7) 500 true 99%Z)
           out2 E2.
  exists out1, out2. split; [reflexivity|]. split; [reflexivity|].
  exact (seeded_runs_agree (RS := lcg) 50 60 (default_generator 7) 500 0%Z 99%Z
           out1 out2 E1 E2).
Defined.

(** C5 -- output shape and order, as the code has it. Every run over [N]
    wells that returns yields exactly [2N] records. For the well at
    position [i], record [2i] is the forward line and record [2i+1] the
    reverse line: their sources are the forward and reverse pool entries
    at the pair recorded for that well, both are addressed to the well's
    label (the row's capital letter, then the column number counted from
    1) and both carry the given volume. The destination labels at the
    even positions are the labels of the input wells, in order. The code
    checks nothing about its configuration, and a run need not return;
    with at least one forward entry, at least two reverse entries and no
    more wells than the usable pair space holds, whatever has been drawn
    so far, some continuation of the draws makes the run return its
    [2N] records. *)
Theorem output_shape_and_order {RS : RandomState} fprimers rprimers volume_nl cells :
  (forall fuel g st,
     assign_pairs fuel fprimers rprimers volume_nl cells g = Done st ->
     length (records (frame_of st)) = 2 * length cells /\
     (forall i cell, nth_error cells i = Some cell ->
        exists f r fsrc rsrc,
          nth_error (covered_list st) i = Some (f, r) /\
          nth_error fprimers f = Some fsrc /\
          nth_error rprimers r = Some rsrc /\
          nth_error (records (frame_of st)) (2 * i)
            = Some (fsrc, cell_label cell, volume_nl) /\
          nth_error (records (frame_of st)) (2 * i + 1)
            = Some (rsrc, cell_label cell, volume_nl)) /\
     evens (Destination_Well (frame_of st)) = map cell_label cells) /\
  (1 <= length fprimers -> 2 <= length rprimers ->
   length cells <= usable (length fprimers) (length rprimers) ->
   Forall (fun cell => fst cell < 26) cells ->
   forall pre : list nat, exists suf st,
     (forall fuel, length pre + 1 <= fuel ->
        assign_pairs (RS := tape) fuel fprimers rprimers volume_nl cells (pre ++ suf)
          = Done st) /\
     length (records (frame_of st)) = 2 * length cells).
Proof.
  split.
  - intros fuel g st Hrun.
    exact (assign_pairs_records fprimers rprimers volume_nl cells fuel g st Hrun).
  - intros HF HR Hroom Hrows pre.
    destruct (assign_pairs_continues fprimers rprimers volume_nl HF HR cells pre
                Hroom Hrows) as (suf & st & Hrun).
    exists suf, st. split; [exact Hrun|].
    apply (assign_pairs_records (RS := tape) fprimers rprimers volume_nl cells
             (length pre + 1) (pre ++ suf) st).
    apply Hrun, le_n.
Qed.

Lemma output_shape_and_order_witness :
  exists st,
    assign_pairs (RS := lcg) 20 demo_fprimers demo_rprimers 500 demo_cells 7%Z = Done st /\
    (length (records (frame_of st)) = 8 /\
     (forall i cell, nth_error demo_cells i = Some cell ->
        exists f r fsrc rsrc,
          nth_error (covered_list st) i = Some (f, r) /\
          nth_error demo_fprimers f = Some fsrc /\
          nth_error demo_rprimers r = Some rsrc /\
          nth_error (records (frame_of st)) (2 * i)
            = Some (fsrc, cell_label cell, 500%Z) /\
          nth_error (records (frame_of st)) (2 * i + 1)
            = Some (rsrc, cell_label cell, 500%Z)) /\
     evens (Destination_Well (frame_of st)) = ["A1"; "A2"; "B1"; "B2"]) /\
    forall pre : list nat, exists suf st',
      (forall fuel, length pre + 1 <= fuel ->
         assign_pairs (RS := tape) fuel demo_fprimers demo_rprimers 500 demo_cells
           (pre ++ suf) = Done st') /\
      length (records (frame_of st')) = 8.
Proof.
  run_done (assign_pairs (RS := lcg) 20 demo_fprimers demo_rprimers 500 demo_cells 7%Z)
           st E.
  destruct (output_shape_and_order (RS := lcg) demo_fprimers demo_rprimers 500 demo_cells)
    as [Hshape Hreturns].
  exists st. split; [reflexivity|]. split.
  - exact (Hshape 20 7%Z st E).
  - apply Hreturns.
    + cbn. lia.
    + cbn. lia.
    + vm_compute. lia.
    + eapply Forall_impl; [|apply (plate_cells_rows 2 2)]. cbn. intros cell Hlt. lia.
Defined.

(** A configuration the specification counts as valid, on the function
    itself: 385 active forward entries, one active reverse entry, the 384
    wells of the plate. Once the first forward draw is 0 the call returns
    no record at all, whatever the iteration budget; the seeded call on
    the generator of this file is such a call. *)
Lemma valid_configuration_without_records :
  (exists fprimers rprimers,
     sample_primers one_reverse_generator default_offset = Done (fprimers, rprimers) /\
     1 <= length fprimers /\ 1 <= length rprimers /\
     length (plate_cells 16 24) <= usable (length fprimers) (length rprimers)) /\
  (forall (RS : RandomState) (g : rng), fst (rng_below 385 g) = 0 ->
   forall fuel df g',
     generate_transfer_df fuel one_reverse_generator 500 false g = OutOfFuel /\
     generate_transfer_df fuel one_reverse_generator 500 false g <> Done (df, g')) /\
  forall fuel (g : Z),
    generate_transfer_df (RS := lcg) fuel one_reverse_generator 500 true g = OutOfFuel.
Proof.
  destruct one_reverse_pools as (Hpools & HF & HR & Hplate).
  split; [|split].
  - exists one_reverse_fprimers, one_reverse_rprimers.
    rewrite HF, HR, Hplate. split; [exact Hpools|]. split; [lia|]. split; [lia|apply le_n].
  - intros RS g Hzero fuel df g'.
    assert (Hrun : generate_transfer_df fuel one_reverse_generator 500 false g = OutOfFuel).
    { unfold generate_transfer_df. rewrite Hpools. cbn [bind].
      now rewrite one_reverse_stuck. }
    split; [exact Hrun|]. rewrite Hrun. discriminate.
  - intros fuel g. unfold generate_transfer_df. rewrite Hpools. cbn [bind].
    assert (Hseed : random_seed (RS := lcg) (randseed one_reverse_generator)
                    = Done 50%Z) by reflexivity.
    rewrite Hseed. cbn [bind]. rewrite one_reverse_stuck; [reflexivity|].
    vm_compute. reflexivity.
Qed.

(** C6 -- termination, as the code has it. On non-empty pools and wells
    of the plate's rows:
    - the capacity precondition is necessary: a run that returns has
      processed no more wells than the usable pair space holds;
    - there is no attempt cap: no run raises, and a run that returns
      within an iteration budget returns the same state within any
      larger one;
    - under the precondition the loops can always be left, whatever has
      been drawn so far some continuation of the draws makes the run
      return, exactly when the reverse pool has at least two entries;
    - with a single reverse entry a forward draw of 0 leaves the loop
      [while ireverse == iforward] without an exit;
    - no configuration returns on every sequence of draws: a source that
      keeps drawing 0 keeps the loops running. *)
Theorem capacity_and_termination {RS : RandomState} fprimers rprimers volume_nl cells :
  0 < length fprimers -> 0 < length rprimers ->
  Forall (fun cell => fst cell < 26) cells ->
  (forall fuel g st,
     assign_pairs fuel fprimers rprimers volume_nl cells g = Done st ->
     length cells <= usable (length fprimers) (length rprimers)) /\
  (forall fuel g exc,
     assign_pairs fuel fprimers rprimers volume_nl cells g <> Raise exc) /\
  (forall fuel fuel' g st, fuel <= fuel' ->
     assign_pairs fuel fprimers rprimers volume_nl cells g = Done st ->
     assign_pairs fuel' fprimers rprimers volume_nl cells g = Done st) /\
  (length cells <= usable (length fprimers) (length rprimers) ->
   ((forall pre : list nat, exists suf st, forall fuel, length pre + 1 <= fuel ->
       assign_pairs (RS := tape) fuel fprimers rprimers volume_nl cells (pre ++ suf)
         = Done st)
    <-> 2 <= length rprimers)) /\
  (length rprimers = 1 ->
   forall fuel g, fst (rng_below (length fprimers) g) = 0 ->
     assign_pairs fuel fprimers rprimers volume_nl cells g = OutOfFuel) /\
  (forall fuel,
     assign_pairs (RS := tape) fuel fprimers rprimers volume_nl cells [] = OutOfFuel).
Proof.
  intros HF HR Hrows. split; [|split; [|split; [|split; [|split]]]].
  - intros fuel g st. apply assign_pairs_capacity.
  - intros fuel g exc. now apply assign_pairs_no_raise.
  - intros fuel fuel' g st. apply assign_pairs_mono.
  - intros Hroom. split.
    + intros Hall. destruct (Nat.le_gt_cases 2 (length rprimers)) as [Hle|Hlt];
        [exact Hle|exfalso].
      destruct (Hall [0]) as (suf & st & Hrun).
      specialize (Hrun 2 ltac:(cbn; lia)).
      rewrite (assign_pairs_stuck (RS := tape)) in Hrun; [discriminate|exact HF|lia|].
      cbn [app rng_below tape tape_below fst]. apply Nat.Div0.mod_0_l.
    + intros Hle pre.
      apply (assign_pairs_continues fprimers rprimers volume_nl); assumption.
  - intros Hone fuel g Hzero. now apply assign_pairs_stuck.
  - intros fuel. now apply assign_pairs_all_zero.
Qed.

Lemma capacity_and_termination_witness :
  (forall fuel g st,
     assign_pairs (RS := lcg) fuel demo_fprimers demo_rprimers 500 demo_cells g = Done st ->
     length demo_cells <= usable 3 3) /\
  (forall fuel g exc,
     assign_pairs (RS := lcg) fuel demo_fprimers demo_rprimers 500 demo_cells g
       <> Raise exc) /\
  (forall fuel fuel' g st, fuel <= fuel' ->
     assign_pairs (RS := lcg) fuel demo_fprimers demo_rprimers 500 demo_cells g = Done st ->
     assign_pairs (RS := lcg) fuel' demo_fprimers demo_rprimers 500 demo_cells g = Done st) /\
  (forall pre : list nat, exists suf st, forall fuel, length pre + 1 <= fuel ->
     assign_pairs (RS := tape) fuel demo_fprimers demo_rprimers 500 demo_cells (pre ++ suf)
       = Done st) /\
  (forall fuel,
     assign_pairs (RS := tape) fuel demo_fprimers demo_rprimers 500 demo_cells []
       = OutOfFuel).
Proof.
  destruct (capacity_and_termination (RS := lcg) demo_fprimers demo_rprimers 500
              demo_cells) as (Hnec & Hraise & Hmono & Hsuff & _ & Hzero).
  - cbn. lia.
  - cbn. lia.
  - eapply Forall_impl; [|apply (plate_cells_rows 2 2)]. cbn. intros cell Hlt. lia.
  - split; [exact Hnec|]. split; [exact Hraise|]. split; [exact Hmono|].
    split; [|exact Hzero].
    apply Hsuff; [vm_compute; lia|cbn; lia].
Defined.

(** The plate's 384 wells, 385 active forward entries and one active
    reverse entry: the usable pair space holds the wells, yet after a
    forward draw of 0 no continuation of the draws makes the run return,
    for any random source. *)
Lemma capacity_not_sufficient :
  1 <= length one_reverse_fprimers /\ 1 <= length one_reverse_rprimers /\
  length (plate_cells 16 24)
    <= usable (length one_reverse_fprimers) (length one_reverse_rprimers) /\
  (forall (suf : list nat) fuel,
     assign_pairs (RS := tape) fuel one_reverse_fprimers one_reverse_rprimers 500
       (plate_cells 16 24) ([0] ++ suf) = OutOfFuel) /\
  ~ (forall pre : list nat, exists suf fuel st,
       assign_pairs (RS := tape) fuel one_reverse_fprimers one_reverse_rprimers 500
         (plate_cells 16 24) (pre ++ suf) = Done st) /\
  forall (RS : RandomState) (g : rng), fst (rng_below 385 g) = 0 ->
  forall fuel,
    assign_pairs fuel one_reverse_fprimers one_reverse_rprimers 500 (plate_cells 16 24) g
      = OutOfFuel.
Proof.
  destruct one_reverse_pools as (_ & HF & HR & Hplate).
  assert (Hdead : forall (suf : list nat) fuel,
            assign_pairs (RS := tape) fuel one_reverse_fprimers one_reverse_rprimers 500
              (plate_cells 16 24) ([0] ++ suf) = OutOfFuel).
  { intros suf fuel. apply (one_reverse_stuck (RS := tape)). reflexivity. }
  rewrite HF, HR, Hplate.
  split; [lia|]. split; [lia|]. split; [lia|]. split; [exact Hdead|]. split.
  - intros Hall. destruct (Hall [0]) as (suf & fuel & st & Hrun).
    rewrite Hdead in Hrun. discriminate.
  - intros RS g Hzero fuel. now apply one_reverse_stuck.
Qed.

(** With a single entry in each pool the first pair can never be formed,
    whatever the random source draws, even for an empty list of wells. *)
Lemma single_entries_never_return {RS : RandomState} fuel volume_nl cells g :
  assign_pairs fuel ["A13"] ["B14"] volume_nl cells g = OutOfFuel.
Proof.
  apply assign_pairs_stuck; [cbn; lia|reflexivity|].
  pose proof (rng_below_lt 1 g ltac:(lia)). cbn [length]. lia.
Qed.

(** C7 -- pool partitioning and trimming. For a grid of [nrows] rows of
    [ncols] identifiers each, both even, the forward pool is the list of
    identifiers at even row and even column, row by row, and the reverse
    pool the list of those at odd row and odd column, row by row. For an
    offset from 0 up to, not including, [(nrows/2) * (ncols/2)], each
    active pool of the generator built on that grid is its full pool
    without the first [offset] entries: its size is
    [(nrows/2) * (ncols/2) - offset] and the entries kept stand in their
    original order. *)
Theorem pools_partition_and_trim gr nrows ncols seed (offset : Z) :
  length gr = nrows ->
  Forall (fun row => length row = ncols) gr ->
  Nat.even nrows = true -> Nat.even ncols = true ->
  (0 <= offset < Z.of_nat ((nrows / 2) * (ncols / 2)))%Z ->
  split_primers_from_grid gr =
    (parity_cells gr nrows ncols 0, parity_cells gr nrows ncols 1) /\
  exists fprimers rprimers,
    sample_primers (new_generator seed (Some gr) None None) offset
      = Done (fprimers, rprimers) /\
    length fprimers = (nrows / 2) * (ncols / 2) - Z.to_nat offset /\
    length rprimers = (nrows / 2) * (ncols / 2) - Z.to_nat offset /\
    parity_cells gr nrows ncols 0 =
      firstn (Z.to_nat offset) (parity_cells gr nrows ncols 0) ++ fprimers /\
    parity_cells gr nrows ncols 1 =
      firstn (Z.to_nat offset) (parity_cells gr nrows ncols 1) ++ rprimers.
Proof.
  intros Hrows Hcols Her Hec Hoff.
  pose proof (forward_pool_cells gr nrows ncols Hrows Hcols Her Hec) as Hfwd.
  pose proof (reverse_pool_cells gr nrows ncols Hrows Hcols Her) as Hrev.
  assert (Hsplit : split_primers_from_grid gr =
            (parity_cells gr nrows ncols 0, parity_cells gr nrows ncols 1)).
  { unfold split_primers_from_grid. now rewrite Hfwd, Hrev. }
  split; [exact Hsplit|].
  unfold new_generator, sample_primers. rewrite Hsplit.
  cbn [fprimers_full rprimers_full].
  rewrite !slice_from_nonneg by lia.
  eexists _, _. split; [reflexivity|].
  rewrite !length_skipn, !parity_cells_length, !firstn_skipn. auto.
Qed.

Lemma pools_partition_and_trim_witness :
  split_primers_from_grid wells384_grid =
    (parity_cells wells384_grid 16 24 0, parity_cells wells384_grid 16 24 1) /\
  exists fprimers rprimers,
    sample_primers (new_generator 7 (Some wells384_grid) None None) 12
      = Done (fprimers, rprimers) /\
    length fprimers = (16 / 2) * (24 / 2) - Z.to_nat 12 /\
    length rprimers = (16 / 2) * (24 / 2) - Z.to_nat 12 /\
    parity_cells wells384_grid 16 24 0 =
      firstn (Z.to_nat 12) (parity_cells wells384_grid 16 24 0) ++ fprimers /\
    parity_cells wells384_grid 16 24 1 =
      firstn (Z.to_nat 12) (parity_cells wells384_grid 16 24 1) ++ rprimers.
Proof.
  apply (pools_partition_and_trim wells384_grid 16 24 7 12).
  - reflexivity.
  - vm_compute. repeat (constructor; [reflexivity|]). constructor.
  - reflexivity.
  - reflexivity.
  - vm_compute. split; [discriminate|reflexivity].
Defined.

(** C8 -- empty pools, as the code has them. [sample_primers] makes no
    check and there is no [ConfigurationError]: for every offset at or
    beyond the size of a full pool it returns normally, with that active
    pool empty. The pair-assignment run handed such pools then fails at
    its first draw from the empty pool, with numpy's [ValueError]. *)
Theorem empty_pool_not_guarded {RS : RandomState} self offset :
  (Z.of_nat (length (fprimers_full self)) <= offset \/
   Z.of_nat (length (rprimers_full self)) <= offset)%Z ->
  exists fprimers rprimers,
    sample_primers self offset = Done (fprimers, rprimers) /\
    (fprimers = [] \/ rprimers = []) /\
    forall fuel volume_nl cells g,
      assign_pairs (S fuel) fprimers rprimers volume_nl cells g = Raise "ValueError".
Proof.
  intros Hoff. eexists _, _. split; [reflexivity|].
  assert (Hempty : slice_from offset (fprimers_full self) = [] \/
                   slice_from offset (rprimers_full self) = []).
  { destruct Hoff as [H|H]; [left|right]; now apply slice_from_all. }
  split; [exact Hempty|]. intros fuel volume_nl cells g.
  now apply assign_pairs_empty_pool.
Qed.

Lemma empty_pool_not_guarded_witness :
  exists fprimers rprimers,
    sample_primers (default_generator 7) 96 = Done (fprimers, rprimers) /\
    (fprimers = [] \/ rprimers = []) /\
    forall fuel volume_nl cells g,
      assign_pairs (RS := lcg) (S fuel) fprimers rprimers volume_nl cells g
        = Raise "ValueError".
Proof.
  apply (empty_pool_not_guarded (RS := lcg) (default_generator 7) 96).
  left. vm_compute. discriminate.
Defined.

(** The default generator asked for an offset equal to the size of its
    full pools: both active pools come back empty, and no error. *)
Lemma empty_pools_returned :
  sample_primers (default_generator 7) 96 = Done ([], []) /\
  sample_primers (default_generator 7) 96 <> Raise "ConfigurationError".
Proof. split; [vm_compute; reflexivity|discriminate]. Qed.

(** C9 -- join role derivation and sequence cleaning, as the code has
    them. Every joined record comes from a transfer row and a barcode row
    whose [Storage] is the transfer row's source well, and is addressed
    to that row's destination. Its sequence is the barcode sequence with
    every space character removed, the other characters kept in order
    (a tab stays). Its role tag, for a sequence name that does not end in
    a line feed, is the last non-digit character of the name: the one
    just before the trailing digits. *)
Theorem join_role_and_sequence df_transfer df_barcodes j :
  In j (join_transfer_with_barcodes df_transfer df_barcodes) ->
  exists t b,
    In t df_transfer /\ In b df_barcodes /\
    t_Source_Well t = b_Storage b /\
    j_Destination_Well j = t_Destination_Well t /\
    list_ascii_of_string (j_Sequence j) =
      filter (fun c => negb (Ascii.eqb c " "%char)) (list_ascii_of_string (b_Sequence b)) /\
    (forall pre c ds,
       b_Sequence_Name b = (pre ++ String c ds)%string ->
       is_digit c = false -> all_digits ds = true ->
       ends_with_newline (b_Sequence_Name b) = false ->
       j_Direction j = Some c).
Proof.
  unfold join_transfer_with_barcodes. intros Hin.
  apply in_flat_map in Hin. destruct Hin as (t & Ht & Hin).
  apply in_map_iff in Hin. destruct Hin as (b & <- & Hb).
  apply filter_In in Hb. destruct Hb as [Hb Heq]. apply String.eqb_eq in Heq.
  exists t, b. cbn [j_Destination_Well j_Sequence j_Direction].
  repeat split; try assumption.
  - apply remove_spaces_filter.
  - intros pre c ds Hname Hc Hds Hend. rewrite Hname in Hend |- *.
    apply extract_direction_last; try assumption.
    now apply (ends_with_newline_app pre).
Qed.

(** The join scenario of the specification. *)
Lemma join_scenario :
  join_transfer_with_barcodes scenario_transfer scenario_barcodes = [scenario_joined].
Proof. reflexivity. Qed.

Lemma join_role_and_sequence_witness :
  exists t b,
    In t scenario_transfer /\ In b scenario_barcodes /\
    t_Source_Well t = b_Storage b /\
    j_Destination_Well scenario_joined = t_Destination_Well t /\
    list_ascii_of_string (j_Sequence scenario_joined) =
      filter (fun c => negb (Ascii.eqb c " "%char)) (list_ascii_of_string (b_Sequence b)) /\
    (forall pre c ds,
       b_Sequence_Name b = (pre ++ String c ds)%string ->
       is_digit c = false -> all_digits ds = true ->
       ends_with_newline (b_Sequence_Name b) = false ->
       j_Direction scenario_joined = Some c).
Proof.
  apply (join_role_and_sequence scenario_transfer scenario_barcodes scenario_joined).
  vm_compute. left. reflexivity.
Defined.

(** A sequence holding a tab: the tab is white space, and the join keeps
    it. *)
Lemma join_keeps_tab :
  exists j,
    join_transfer_with_barcodes scenario_transfer tabbed_barcodes = [j] /\
    j_Direction j = Some "F"%char /\
    remove_whitespace (String "A" (String "C" (String tab "GT"))) = "ACGT" /\
    j_Sequence j <> remove_whitespace (String "A" (String "C" (String tab "GT"))).
Proof.
  eexists. split; [reflexivity|]. split; [reflexivity|]. split; [reflexivity|].
  vm_compute. discriminate.
Qed.

(** A name that ends in a line feed: [$] also matches just before it, so
    the leftmost match starts at an earlier character. *)
Lemma direction_before_final_newline :
  extract_direction (String "F" (String "1" (String newline ""))) = Some "F"%char.
Proof. reflexivity. Qed.

(** A name of digits only has no role tag. *)
Lemma direction_of_digits : extract_direction "123" = None.
Proof. reflexivity. Qed.

(** C10 -- in-bounds pool indexing. On non-empty pools, every pair the
    draws produce has its forward index below the forward pool size and
    its reverse index below the reverse pool size; hence a run over wells
    of the plate's rows raises no exception, in particular no
    [IndexError] from indexing a pool, and every recorded pair is in
    bounds. *)
Theorem pool_indices_in_bounds {RS : RandomState} fuel fprimers rprimers volume_nl
    cells g :
  0 < length fprimers -> 0 < length rprimers ->
  Forall (fun cell => fst cell < 26) cells ->
  (forall g0 f r g1, draw_pair fuel fprimers rprimers g0 = Done (f, r, g1) ->
     f < length fprimers /\ r < length rprimers) /\
  (forall exc, assign_pairs fuel fprimers rprimers volume_nl cells g <> Raise exc) /\
  (forall st, assign_pairs fuel fprimers rprimers volume_nl cells g = Done st ->
     Forall (fun p => fst p < length fprimers /\ snd p < length rprimers)
            (covered_list st)).
Proof.
  intros HF HR Hrows. split; [|split].
  - intros g0 f r g1 H. apply draw_pair_Done in H. destruct H as (Hf & Hr & _). auto.
  - intros exc. now apply assign_pairs_no_raise.
  - intros st Hrun. apply assign_pairs_invariant in Hrun. destruct Hrun as [Hinv _].
    eapply Forall_impl; [|apply Hinv]. intros p (Hf & Hr & _). auto.
Qed.

Lemma pool_indices_in_bounds_witness :
  (forall g0 f r g1,
     draw_pair (RS := lcg) 20 demo_fprimers demo_rprimers g0 = Done (f, r, g1) ->
     f < 3 /\ r < 3) /\
  (forall exc,
     assign_pairs (RS := lcg) 20 demo_fprimers demo_rprimers 500 demo_cells 7%Z
       <> Raise exc) /\
  (forall st,
     assign_pairs (RS := lcg) 20 demo_fprimers demo_rprimers 500 demo_cells 7%Z
       = Done st ->
     Forall (fun p => fst p < 3 /\ snd p < 3) (covered_list st)).
Proof.
  apply (pool_indices_in_bounds (RS := lcg) 20 demo_fprimers demo_rprimers 500
           demo_cells 7%Z).
  - cbn. lia.
  - cbn. lia.
  - eapply Forall_impl; [|apply (plate_cells_rows 2 2)]. cbn. intros cell Hlt. lia.
Defined.

(** * Further properties of the transfer utilities *)

(** ** The pools of a grid of distinct identifiers *)

Lemma odds_cons2 {A : Type} (a b : A) (l : list A) : odds (a :: b :: l) = b :: odds l.
Proof. unfold odds. cbn. destruct l; reflexivity. Qed.

Lemma evens_odds_perm {A : Type} (l : list A) : Permutation l (evens l ++ odds l).
Proof.
  remember (length l) as n eqn:Hn. revert l Hn.
  induction n as [n IH] using lt_wf_ind. intros l Hn.
  destruct l as [|a [|b l]]; [constructor|repeat constructor|].
  rewrite odds_cons2. cbn [evens app]. constructor.
  apply Permutation_cons_app. apply (IH (length l)); [subst n; cbn; lia|reflexivity].
Qed.

Lemma concat_evens_odds_perm {A : Type} (rows : list (list A)) :
  Permutation (concat rows) (concat (map evens rows) ++ concat (map odds rows)).
Proof.
  induction rows as [|row rows IH]; [constructor|]. cbn [concat map].
  rewrite (evens_odds_perm row) at 1. rewrite IH.
  rewrite <- !app_assoc. apply Permutation_app_head.
  rewrite !app_assoc. apply Permutation_app_tail. apply Permutation_app_comm.
Qed.

Lemma concat_perm {A : Type} (l l' : list (list A)) :
  Permutation l l' -> Permutation (concat l) (concat l').
Proof.
  intros Hp.
  assert (Hc : forall m : list (list A), concat m = flat_map (fun x => x) m).
  { intros m. now rewrite flat_map_concat_map, map_id. }
  rewrite !Hc. now apply Permutation_flat_map.
Qed.

(** X1 -- the two pools of a grid whose identifiers are pairwise
    distinct share no identifier, and neither holds one twice, whatever
    the shape of the grid. *)
Theorem pools_share_no_identifier (gr : grid) :
  NoDup (concat gr) ->
  NoDup (fst (split_primers_from_grid gr) ++ snd (split_primers_from_grid gr)).
Proof.
  intros Hnd. unfold split_primers_from_grid. cbn [fst snd].
  assert (Hp : Permutation (concat gr)
            ((concat (map evens (evens gr)) ++ concat (map odds (odds gr))) ++
             (concat (map odds (evens gr)) ++ concat (map evens (odds gr))))).
  { rewrite (concat_perm _ _ (evens_odds_perm gr)), concat_app.
    rewrite (concat_evens_odds_perm (evens gr)), (concat_evens_odds_perm (odds gr)).
    rewrite <- !app_assoc. apply Permutation_app_head.
    rewrite app_assoc. apply Permutation_app_comm. }
  apply (Permutation_NoDup Hp) in Hnd. now apply NoDup_app_remove_r in Hnd.
Qed.

Lemma pools_share_no_identifier_witness :
  NoDup (fst (split_primers_from_grid wells384_grid) ++
         snd (split_primers_from_grid wells384_grid)).
Proof.
  apply (pools_share_no_identifier wells384_grid).
  assert (E : nodup string_dec (concat wells384_grid) = concat wells384_grid)
    by (vm_compute; reflexivity).
  rewrite <- E. apply NoDup_nodup.
Defined.


(** ** Trimming by any offset *)

(** The number of entries [a[offset:]] keeps of [len]: all but the first
    [offset] for a non-negative offset, the last [-offset] for a negative
    one. *)
Definition kept_size (len : nat) (offset : Z) : Z :=
  if (offset <? 0)%Z then Z.min (Z.of_nat len) (- offset)
  else Z.max 0 (Z.of_nat len - offset).

Lemma slice_from_suffix {A : Type} (offset : Z) (l : list A) :
  exists dropped, l = dropped ++ slice_from offset l.
Proof.
  unfold slice_from. destruct (offset <? 0)%Z; eexists; symmetry; apply firstn_skipn.
Qed.

Lemma slice_from_length {A : Type} (offset : Z) (l : list A) :
  Z.of_nat (length (slice_from offset l)) = kept_size (length l) offset.
Proof.
  unfold slice_from, kept_size. destruct (Z.ltb_spec offset 0); rewrite length_skipn; lia.
Qed.

(** X2 -- for every integer offset, negative ones included,
    [sample_primers] returns, and each active pool is a suffix of its
    full pool: entries are only dropped from the front, never reordered.
    A non-negative offset drops that many entries (all of them when the
    pool is shorter); a negative offset keeps the last [-offset] entries
    (the whole pool when it is shorter). *)
Theorem active_pools_are_suffixes self offset :
  exists fprimers rprimers,
    sample_primers self offset = Done (fprimers, rprimers) /\
    (exists dropped, fprimers_full self = dropped ++ fprimers) /\
    (exists dropped, rprimers_full self = dropped ++ rprimers) /\
    Z.of_nat (length fprimers) = kept_size (length (fprimers_full self)) offset /\
    Z.of_nat (length rprimers) = kept_size (length (rprimers_full self)) offset.
Proof.
  eexists _, _. split; [reflexivity|].
  repeat split; auto using slice_from_suffix, slice_from_length.
Qed.

(** ** Lines of the transfer frame *)

(** Two lists taken in turn: one entry of the first, one of the second. *)
Fixpoint interleave {A : Type} (l1 l2 : list A) : list A :=
  match l1, l2 with
  | x :: l1', y :: l2' => x :: y :: interleave l1' l2'
  | _, _ => []
  end.

Lemma evens_interleave {A : Type} (l1 : list A) : forall l2,
  length l1 = length l2 -> evens (interleave l1 l2) = l1.
Proof.
  induction l1 as [|x l1 IH]; intros [|y l2] Hlen; try discriminate; [reflexivity|].
  cbn [interleave evens]. f_equal. apply IH. now injection Hlen.
Qed.

Lemma odds_interleave {A : Type} (l1 : list A) : forall l2,
  length l1 = length l2 -> odds (interleave l1 l2) = l2.
Proof.
  induction l1 as [|x l1 IH]; intros [|y l2] Hlen; try discriminate; [reflexivity|].
  cbn [interleave]. rewrite odds_cons2. f_equal. apply IH. now injection Hlen.
Qed.

Lemma interleave_snoc {A : Type} (l1 : list A) x y : forall l2,
  length l1 = length l2 ->
  interleave (l1 ++ [x]) (l2 ++ [y]) = interleave l1 l2 ++ [x; y].
Proof.
  induction l1 as [|a l1 IH]; intros [|b l2] Hlen; try discriminate; [reflexivity|].
  cbn [app interleave]. do 2 f_equal. apply IH. now injection Hlen.
Qed.

Section Lines.

Variables fprimers rprimers : list string.
Variable volume_nl : Z.

(** The three columns as lines: the source column interleaves the
    forward and reverse pool entries of the recorded pairs, the
    destination column holds each well's label twice. *)
Lemma emitted_interleaved cells cov src dst vol :
  emitted fprimers rprimers volume_nl cells cov src dst vol ->
  exists lbls fsrcs rsrcs,
    Forall2 (fun cell lbl => dest_label (fst cell) (snd cell) = Done lbl) cells lbls /\
    Forall2 (fun p s => nth_error fprimers (fst p) = Some s) cov fsrcs /\
    Forall2 (fun p s => nth_error rprimers (snd p) = Some s) cov rsrcs /\
    src = interleave fsrcs rsrcs /\
    dst = interleave lbls lbls.
Proof.
  induction 1 as [|cells cov src dst vol row col f r lbl fsrc rsrc _ IH Hl Hf Hr].
  - exists [], [], []. repeat split; constructor.
  - destruct IH as (lbls & fsrcs & rsrcs & Hc & Hfs & Hrs & -> & ->).
    exists (lbls ++ [lbl]), (fsrcs ++ [fsrc]), (rsrcs ++ [rsrc]).
    pose proof (Forall2_length Hfs) as L1. pose proof (Forall2_length Hrs) as L2.
    repeat split.
    + apply Forall2_app; [exact Hc|]. now repeat constructor.
    + apply Forall2_app; [exact Hfs|]. now repeat constructor.
    + apply Forall2_app; [exact Hrs|]. now repeat constructor.
    + rewrite interleave_snoc by congruence. reflexivity.
    + rewrite interleave_snoc by reflexivity. reflexivity.
Qed.

End Lines.

Lemma Forall2_map_eq {A B C : Type} (f : A -> C) (g : B -> C) (l : list A) (l' : list B) :
  Forall2 (fun a b => f a = g b) l l' -> map f l = map g l'.
Proof. induction 1; cbn; congruence. Qed.

Lemma map_Done_inj {A : Type} (l l' : list A) : map Done l = map Done l' -> l = l'.
Proof.
  revert l'. induction l as [|a l IH]; intros [|b l'] H; try discriminate; [reflexivity|].
  cbn in H. injection H as -> H. f_equal. now apply IH.
Qed.

(** The labels the loop forms over the 16 x 24 plate are the well names
    of [wells384_list], in its order. *)
Lemma plate_labels :
  map (fun cell => dest_label (fst cell) (snd cell)) (plate_cells 16 24)
  = map Done wells384_list.
Proof. vm_compute. reflexivity. Qed.

(** X3 -- every call of [generate_transfer_df] that returns addresses
    the wells of [wells384_list], A1 to P24, in that order, each exactly
    twice in a row: the destination column at the even positions and at
    the odd positions is [wells384_list], whatever the generator, the
    volume, the seeding and the draws. *)
Theorem destinations_cover_plate {RS : RandomState} fuel self volume_nl use_seed g df g' :
  generate_transfer_df fuel self volume_nl use_seed g = Done (df, g') ->
  evens (Destination_Well df) = wells384_list /\
  odds (Destination_Well df) = wells384_list /\
  length (Destination_Well df) = 768.
Proof.
  intros Hrun. apply generate_transfer_df_Done in Hrun.
  destruct Hrun as (st & Hrun & Heq). injection Heq as -> _.
  apply assign_pairs_invariant in Hrun. destruct Hrun as [[Hem _ _ _] _].
  destruct (emitted_lengths _ _ _ _ _ _ _ _ Hem) as (_ & _ & Hd & _).
  apply emitted_interleaved in Hem.
  destruct Hem as (lbls & fsrcs & rsrcs & Hc & _ & _ & _ & Hdst).
  assert (Hl : lbls = wells384_list).
  { apply map_Done_inj. rewrite <- plate_labels. symmetry.
    apply (Forall2_map_eq (fun cell => dest_label (fst cell) (snd cell)) Done).
    exact Hc. }
  cbn [frame_of Destination_Well]. rewrite Hdst, Hl.
  rewrite evens_interleave, odds_interleave by reflexivity.
  split; [reflexivity|]. split; [reflexivity|].
  rewrite Hdst, Hl in Hd. rewrite Hd, plate_cells_length. reflexivity.
Qed.

Lemma destinations_cover_plate_witness :
  exists df g',
    generate_transfer_df (RS := lcg) 50 (default_generator 7) 500 true 0%Z = Done (df, g') /\
    evens (Destination_Well df) = wells384_list /\
    odds (Destination_Well df) = wells384_list /\
    length (Destination_Well df) = 768.
Proof.
  run_done (generate_transfer_df (RS := lcg) 50 (default_generator 7) 500 true 0%Z)
           out E.
  destruct out as [df g']. exists df, g'. split; [reflexivity|].
  exact (destinations_cover_plate (RS := lcg) 50 (default_generator 7) 500 true 0%Z
           df g' E).
Defined.

Lemma NoDup_app_disjoint {A : Type} (l1 l2 : list A) x :
  NoDup (l1 ++ l2) -> In x l2 -> ~ In x l1.
Proof.
  induction l1 as [|a l1 IH]; cbn; intros Hnd Hx2; [tauto|].
  inversion Hnd as [|? ? Hnin Hnd']; subst. intros [->|Hx1].
  - apply Hnin, in_or_app. now right.
  - now apply (IH Hnd' Hx2).
Qed.

Lemma Forall2_nth_error_In {A : Type} (pool : list A) (idx : nat * nat -> nat)
    (cov : list (nat * nat)) (srcs : list A) :
  Forall2 (fun p s => nth_error pool (idx p) = Some s) cov srcs -> incl srcs pool.
Proof.
  induction 1 as [|p s cov srcs Hs _ IH]; intros x Hx; [destruct Hx|].
  destruct Hx as [<-|Hx]; [eapply nth_error_In; exact Hs|now apply IH].
Qed.

Lemma Forall2_nth_error_map (pool : list string) (idx : nat * nat -> nat)
    (cov : list (nat * nat)) (srcs : list string) :
  Forall2 (fun p s => nth_error pool (idx p) = Some s) cov srcs ->
  srcs = map (fun p => nth (idx p) pool "") cov.
Proof.
  induction 1 as [|p s cov srcs Hs _ IH]; [reflexivity|]. cbn [map].
  now rewrite (nth_error_nth _ _ "" Hs), IH.
Qed.

Lemma nth_NoDup_inj (pool : list string) i j :
  NoDup pool -> i < length pool -> j < length pool ->
  nth i pool "" = nth j pool "" -> i = j.
Proof.
  intros Hnd Hi Hj Heq. apply (proj1 (NoDup_nth_error pool) Hnd i j Hi).
  now rewrite (nth_error_nth' pool "" Hi), (nth_error_nth' pool "" Hj), Heq.
Qed.

Lemma combine_map_same {A B C : Type} (f : A -> B) (g : A -> C) (l : list A) :
  combine (map f l) (map g l) = map (fun a => (f a, g a)) l.
Proof. induction l as [|a l IH]; cbn; [reflexivity|now rewrite IH]. Qed.

(** X4 -- when neither pool holds a label twice, no two wells are
    assigned the same pair of source labels: the (forward source, reverse
    source) pairs of a returning run, one per well, are pairwise
    distinct. *)
Theorem label_pairs_distinct {RS : RandomState} fuel fprimers rprimers volume_nl
    cells g st :
  NoDup fprimers -> NoDup rprimers ->
  assign_pairs fuel fprimers rprimers volume_nl cells g = Done st ->
  length (combine (evens (Source_Well (frame_of st))) (odds (Source_Well (frame_of st))))
    = length cells /\
  NoDup (combine (evens (Source_Well (frame_of st))) (odds (Source_Well (frame_of st)))).
Proof.
  intros Hfp Hrp Hrun. apply assign_pairs_invariant in Hrun.
  destruct Hrun as [[Hem Hnd Hval _] Hlen].
  apply emitted_interleaved in Hem.
  destruct Hem as (lbls & fsrcs & rsrcs & _ & Hfs & Hrs & Hsrc & _).
  pose proof (Forall2_length Hfs) as L1. pose proof (Forall2_length Hrs) as L2.
  cbn [frame_of Source_Well]. rewrite Hsrc.
  rewrite evens_interleave, odds_interleave by congruence.
  split; [rewrite length_combine; lia|].
  rewrite (Forall2_nth_error_map _ _ _ _ Hfs), (Forall2_nth_error_map _ _ _ _ Hrs).
  rewrite combine_map_same. apply Injective_map_NoDup_in; [|exact Hnd].
  rewrite Forall_forall in Hval.
  intros [f r] [f' r'] Hin Hin' Heq. cbn [fst snd] in Heq. injection Heq as Hf Hr.
  destruct (Hval _ Hin) as (Hf1 & Hr1 & _). destruct (Hval _ Hin') as (Hf2 & Hr2 & _).
  cbn [fst snd] in Hf1, Hr1, Hf2, Hr2.
  now rewrite (nth_NoDup_inj fprimers f f' Hfp Hf1 Hf2 Hf),
              (nth_NoDup_inj rprimers r r' Hrp Hr1 Hr2 Hr).
Qed.

Lemma label_pairs_distinct_witness :
  exists st,
    assign_pairs (RS := lcg) 20 demo_fprimers demo_rprimers 500 demo_cells 7%Z = Done st /\
    length (combine (evens (Source_Well (frame_of st)))
                    (odds (Source_Well (frame_of st)))) = length demo_cells /\
    NoDup (combine (evens (Source_Well (frame_of st))) (odds (Source_Well (frame_of st)))).
Proof.
  run_done (assign_pairs (RS := lcg) 20 demo_fprimers demo_rprimers 500 demo_cells 7%Z)
           st E.
  exists st. split; [reflexivity|].
  apply (label_pairs_distinct (RS := lcg) 20 demo_fprimers demo_rprimers 500
           demo_cells 7%Z st); [| |exact E].
  - repeat constructor; cbn; intuition discriminate.
  - repeat constructor; cbn; intuition discriminate.
Defined.

(** X5 -- the sources of a returning call of [generate_transfer_df] come
    from the active pools only: every forward line is sourced from
    [fprimers_full[12:]] and every reverse line from [rprimers_full[12:]].
    When a full pool holds no label twice, none of its first twelve
    entries is ever a source. *)
Theorem sources_from_active_pools {RS : RandomState} fuel self volume_nl use_seed g df g' :
  generate_transfer_df fuel self volume_nl use_seed g = Done (df, g') ->
  incl (evens (Source_Well df)) (skipn 12 (fprimers_full self)) /\
  incl (odds (Source_Well df)) (skipn 12 (rprimers_full self)) /\
  (NoDup (fprimers_full self) ->
   forall s, In s (evens (Source_Well df)) -> ~ In s (firstn 12 (fprimers_full self))) /\
  (NoDup (rprimers_full self) ->
   forall s, In s (odds (Source_Well df)) -> ~ In s (firstn 12 (rprimers_full self))).
Proof.
  intros Hrun. apply generate_transfer_df_Done in Hrun.
  destruct Hrun as (st & Hrun & Heq). injection Heq as -> _.
  apply assign_pairs_invariant in Hrun. destruct Hrun as [[Hem _ _ _] _].
  apply emitted_interleaved in Hem.
  destruct Hem as (lbls & fsrcs & rsrcs & _ & Hfs & Hrs & Hsrc & _).
  pose proof (Forall2_length Hfs) as L1. pose proof (Forall2_length Hrs) as L2.
  cbn [frame_of Source_Well]. rewrite Hsrc.
  rewrite evens_interleave, odds_interleave by congruence.
  apply Forall2_nth_error_In in Hfs, Hrs.
  change (slice_from default_offset (fprimers_full self))
    with (skipn 12 (fprimers_full self)) in Hfs.
  change (slice_from default_offset (rprimers_full self))
    with (skipn 12 (rprimers_full self)) in Hrs.
  split; [exact Hfs|]. split; [exact Hrs|]. split.
  - intros Hnd s Hs. rewrite <- (firstn_skipn 12 (fprimers_full self)) in Hnd.
    apply (NoDup_app_disjoint _ _ s Hnd). now apply Hfs.
  - intros Hnd s Hs. rewrite <- (firstn_skipn 12 (rprimers_full self)) in Hnd.
    apply (NoDup_app_disjoint _ _ s Hnd). now apply Hrs.
Qed.

Lemma sources_from_active_pools_witness :
  exists df g',
    generate_transfer_df (RS := lcg) 50 (default_generator 7) 500 true 0%Z = Done (df, g') /\
    incl (evens (Source_Well df)) (skipn 12 (fprimers_full (default_generator 7))) /\
    incl (odds (Source_Well df)) (skipn 12 (rprimers_full (default_generator 7))) /\
    (NoDup (fprimers_full (default_generator 7)) ->
     forall s, In s (evens (Source_Well df)) ->
       ~ In s (firstn 12 (fprimers_full (default_generator 7)))) /\
    (NoDup (rprimers_full (default_generator 7)) ->
     forall s, In s (odds (Source_Well df)) ->
       ~ In s (firstn 12 (rprimers_full (default_generator 7)))).
Proof.
  run_done (generate_transfer_df (RS := lcg) 50 (default_generator 7) 500 true 0%Z)
           out E.
  destruct out as [df g']. exists df, g'. split; [reflexivity|].
  exact (sources_from_active_pools (RS := lcg) 50 (default_generator 7) 500 true 0%Z
           df g' E).
Defined.

(** ** The merge of the barcode join *)

Lemma filter_no_key (k : string) (bs : list barcode_row) :
  ~ In k (map b_Storage bs) ->
  filter (fun b => String.eqb k (b_Storage b)) bs = [].
Proof.
  induction bs as [|b bs IH]; cbn; intros Hnin; [reflexivity|].
  destruct (String.eqb_spec k (b_Storage b)) as [->|Hne]; [tauto|].
  apply IH. tauto.
Qed.

Lemma filter_unique_key (k : string) (bs : list barcode_row) :
  NoDup (map b_Storage bs) -> In k (map b_Storage bs) ->
  exists b, filter (fun b' => String.eqb k (b_Storage b')) bs = [b].
Proof.
  induction bs as [|b bs IH]; cbn; intros Hnd Hin; [destruct Hin|].
  inversion Hnd as [|? ? Hnin Hnd']; subst.
  destruct (String.eqb_spec k (b_Storage b)) as [->|Hne].
  - exists b. now rewrite filter_no_key.
  - destruct Hin as [Heq|Hin]; [congruence|]. now apply IH.
Qed.

(** A transfer plan of three wells that use the source wells in another
    order than the barcode table lists them, two of them more than once;
    the barcode table holds a well the plan does not use. *)
Definition plan_transfer : list transfer_row :=
  [{| t_Source_Well := "A13"; t_Destination_Well := "A1"; t_Volume := 500 |};
   {| t_Source_Well := "B16"; t_Destination_Well := "A1"; t_Volume := 500 |};
   {| t_Source_Well := "A15"; t_Destination_Well := "A2"; t_Volume := 500 |};
   {| t_Source_Well := "B16"; t_Destination_Well := "A2"; t_Volume := 500 |};
   {| t_Source_Well := "A13"; t_Destination_Well := "A3"; t_Volume := 500 |}].

Definition plan_barcodes : list barcode_row :=
  [{| b_Well_Position := "D4"; b_Sequence_Name := "primerR02";
      b_Sequence := "TT GA CC"; b_Storage := "B16" |};
   {| b_Well_Position := "C1"; b_Sequence_Name := "primerF01";
      b_Sequence := "AC GT"; b_Storage := "A13" |};
   {| b_Well_Position := "D2"; b_Sequence_Name := "primerR01";
      b_Sequence := "GG AT"; b_Storage := "B14" |};
   {| b_Well_Position := "C3"; b_Sequence_Name := "primerF02";
      b_Sequence := "CA TG"; b_Storage := "A15" |}].

(** X6 -- when the barcode table holds each [Storage] label once and
    every source well of the transfer frame is among them, the join has
    exactly one record per transfer row, in the order of the transfer
    rows, each addressed to its row's destination. *)
Theorem join_one_record_per_row df_transfer df_barcodes :
  NoDup (map b_Storage df_barcodes) ->
  (forall t, In t df_transfer -> In (t_Source_Well t) (map b_Storage df_barcodes)) ->
  length (join_transfer_with_barcodes df_transfer df_barcodes) = length df_transfer /\
  map j_Destination_Well (join_transfer_with_barcodes df_transfer df_barcodes)
    = map t_Destination_Well df_transfer.
Proof.
  intros Hnd Hall. unfold join_transfer_with_barcodes.
  induction df_transfer as [|t ts IH]; [split; reflexivity|].
  destruct IH as [IHlen IHmap]; [intros t' Ht'; apply Hall; now right|].
  destruct (filter_unique_key (t_Source_Well t) df_barcodes Hnd (Hall t (or_introl eq_refl)))
    as [b Hb].
  cbn [flat_map]. rewrite Hb. cbn [map app length j_Destination_Well].
  split; [now rewrite IHlen|now rewrite IHmap].
Qed.

Lemma join_one_record_per_row_witness :
  length (join_transfer_with_barcodes plan_transfer plan_barcodes) = 5 /\
  map j_Destination_Well (join_transfer_with_barcodes plan_transfer plan_barcodes)
    = ["A1"; "A1"; "A2"; "A2"; "A3"].
Proof.
  apply (join_one_record_per_row plan_transfer plan_barcodes).
  - cbn [plan_barcodes map b_Storage].
    repeat (constructor; [cbn; intuition discriminate|]). constructor.
  - intros t Ht. cbn [plan_transfer In] in Ht. cbn [plan_barcodes map b_Storage].
    repeat (destruct Ht as [<-|Ht]; [cbn; tauto|]). destruct Ht.
Defined.

(** X7 -- a transfer row whose source well is no [Storage] label of the
    barcode table is dropped without an error: the join is the join of
    the other rows. *)
Theorem join_drops_unmatched_row rows_before t rows_after df_barcodes :
  ~ In (t_Source_Well t) (map b_Storage df_barcodes) ->
  join_transfer_with_barcodes (rows_before ++ t :: rows_after) df_barcodes
    = join_transfer_with_barcodes (rows_before ++ rows_after) df_barcodes.
Proof.
  intros Hnin. unfold join_transfer_with_barcodes.
  rewrite !flat_map_app. cbn [flat_map]. now rewrite filter_no_key.
Qed.

Lemma join_drops_unmatched_row_witness :
  join_transfer_with_barcodes
    (scenario_transfer ++
     {| t_Source_Well := "W06"; t_Destination_Well := "A2"; t_Volume := 500 |} :: [])
    scenario_barcodes
  = join_transfer_with_barcodes (scenario_transfer ++ []) scenario_barcodes.
Proof.
  apply (join_drops_unmatched_row scenario_transfer
           {| t_Source_Well := "W06"; t_Destination_Well := "A2"; t_Volume := 500 |}
           [] scenario_barcodes).
  cbn. intros [H|[]]. discriminate H.
Defined.

(** ** Names without a role tag *)

Lemma extract_direction_None s : extract_direction s = None <-> all_digits s = true.
Proof.
  induction s as [|c s IH]; [cbn; tauto|]. cbn [extract_direction all_digits].
  destruct (is_digit c) eqn:Hc; cbn [negb andb].
  - exact IH.
  - split; [|discriminate]. destruct (digits_then_end s) eqn:Hd; [discriminate|].
    intros Hnone. apply IH in Hnone. apply digits_then_end_all_digits in Hnone. congruence.
Qed.

(** X8 -- a sequence name gets no role tag exactly when it consists of
    digits only (the empty name included); a role tag, when there is one,
    is a character of the name and never a digit. *)
Theorem direction_missing_iff_digits s :
  (extract_direction s = None <-> all_digits s = true) /\
  (forall c, extract_direction s = Some c ->
     is_digit c = false /\ In c (list_ascii_of_string s)).
Proof.
  split; [apply extract_direction_None|].
  induction s as [|a s IH]; intros c; cbn [extract_direction list_ascii_of_string];
    [discriminate|].
  destruct (is_digit a) eqn:Ha; cbn [negb andb].
  - intros H. destruct (IH c H) as [Hc Hin]. split; [exact Hc|now right].
  - destruct (digits_then_end s).
    + intros H. injection H as <-. split; [exact Ha|now left].
    + intros H. destruct (IH c H) as [Hc Hin]. split; [exact Hc|now right].
Qed.

(** * The plate scripts

    [echo_transfer.py] and [generate_heatmap_mapping.py] read and write
    well labels. Both lean on three built-ins of Python whose full
    behaviour is wide (Unicode case mapping, the many spellings [int]
    accepts): [str.upper] and [int] are taken as an interface with the
    part of their contract the scripts' labels need, [ord] of a
    one-character string is its code point. Rows and columns are the
    non-negative indices the plate loops pass, and [chr] is modelled for
    code points below 256, the range of the string model. Two characters
    of that range have their upper case outside it (U+00FF and U+00B5):
    no instance gives Python's value for them, so the row decoded from
    a label that starts with one of them is not Python's. *)

Class Builtins : Type := {
  py_upper : string -> string;
  py_int : string -> outcome Z;
  py_upper_capital : forall r, r < 26 ->
    py_upper (String (ascii_of_nat (65 + r)) "") = String (ascii_of_nat (65 + r)) "";
  py_upper_small : forall r, r < 26 ->
    py_upper (String (ascii_of_nat (97 + r)) "") = String (ascii_of_nat (65 + r)) "";
  py_int_decimal : forall n, n <= 1000 -> py_int (str n) = Done (Z.of_nat n)
}.

(** [ord(s)]: a [TypeError] unless [s] has exactly one character. *)
Definition py_ord (s : string) : outcome Z :=
  match s with
  | String c EmptyString => Done (Z.of_nat (nat_of_ascii c))
  | _ => Raise "TypeError"
  end.

(** [a[:n]] on a sequence, for any integer [n]: a negative [n] counts
    from the end and is clamped at the start. *)
Definition slice_to {A : Type} (n : Z) (l : list A) : list A :=
  if (n <? 0)%Z
  then firstn (Z.to_nat (Z.of_nat (length l) + n)) l
  else firstn (Z.to_nat n) l.

(** ** A reference instance of the built-ins

    Case mapping of the ASCII letters, and a reader of plain digit
    strings; it refuses every other spelling, of which Python's [int]
    reads some. It serves to exercise the theorems. *)

Definition ascii_upper (c : ascii) : ascii :=
  let n := nat_of_ascii c in
  if (97 <=? n) && (n <=? 122) then ascii_of_nat (n - 32) else c.

Fixpoint string_upper (s : string) : string :=
  match s with
  | EmptyString => EmptyString
  | String c s' => String (ascii_upper c) (string_upper s')
  end.

Fixpoint read_digits (s : string) (acc : Z) : outcome Z :=
  match s with
  | EmptyString => Done acc
  | String c s' =>
      if is_digit c then read_digits s' (10 * acc + Z.of_nat (nat_of_ascii c - 48))%Z
      else Raise "ValueError"
  end.

Definition read_decimal (s : string) : outcome Z :=
  match s with
  | EmptyString => Raise "ValueError"
  | _ => read_digits s 0
  end.

Definition reads_back (n : nat) : bool :=
  match read_decimal (str n) with
  | Done z => Z.eqb z (Z.of_nat n)
  | _ => false
  end.

Lemma string_upper_capital : forall r, r < 26 ->
  string_upper (String (ascii_of_nat (65 + r)) "") = String (ascii_of_nat (65 + r)) "".
Proof. intros r Hr. do 26 (destruct r as [|r]; [reflexivity|]). lia. Qed.

Lemma string_upper_small : forall r, r < 26 ->
  string_upper (String (ascii_of_nat (97 + r)) "") = String (ascii_of_nat (65 + r)) "".
Proof. intros r Hr. do 26 (destruct r as [|r]; [reflexivity|]). lia. Qed.

Lemma read_decimal_str : forall n, n <= 1000 -> read_decimal (str n) = Done (Z.of_nat n).
Proof.
  intros n Hn.
  assert (Hall : forallb reads_back (seq 0 1001) = true) by (vm_compute; reflexivity).
  rewrite forallb_forall in Hall. specialize (Hall n). unfold reads_back in Hall.
  assert (Hin : In n (seq 0 1001)) by (apply in_seq; lia).
  destruct (read_decimal (str n)) as [z| |].
  - f_equal. now apply Z.eqb_eq, Hall.
  - discriminate (Hall Hin).
  - discriminate (Hall Hin).
Qed.

#[local] Instance ascii_builtins : Builtins :=
  {| py_upper := string_upper; py_int := read_decimal;
     py_upper_capital := string_upper_capital;
     py_upper_small := string_upper_small;
     py_int_decimal := read_decimal_str |}.

(** ** [echo_transfer.py] *)

Module EchoTransfer.

(** The CSV file a call leaves: the header row, then one row per
    transfer. The volume is an opaque value passed through. *)
Record echo_csv (V : Type) : Type := {
  csv_header : list string;
  csv_rows : list (string * string * V)
}.

Arguments csv_header {V} _.
Arguments csv_rows {V} _.

(** [f"{chr(ord('A') + row)}{col + 1}"]; the plate format is not used. *)
Definition row_col_to_well (row col : nat) (plate_format : Z) : string :=
  String (ascii_of_nat (65 + row)) (str (col + 1)).

Definition generate_384_well_positions : list string :=
  flat_map (fun row => map (fun col => row_col_to_well row col 384) (seq 0 24)) (seq 0 16).

Definition generate_96_well_positions : list string :=
  flat_map (fun row => map (fun col => row_col_to_well row col 96) (seq 0 12)) (seq 0 8).

(** The length check comes before the file is opened: a [ValueError]
    leaves no file. *)
Definition generate_echo_csv {V : Type} (source_wells destination_wells : list string)
    (transfer_volume_nl : V) : outcome (echo_csv V) :=
  if negb (length source_wells =? length destination_wells) then Raise "ValueError"
  else Done {| csv_header := ["Source Well"; "Destination Well"; "Transfer Volume"];
               csv_rows := map (fun sd => (fst sd, snd sd, transfer_volume_nl))
                               (combine source_wells destination_wells) |}.

Definition generate_primer_transfer_csv {V : Type} (num_primers : Z)
    (source_plate_format dest_plate_format : Z) (transfer_volume_nl : V)
    : outcome (echo_csv V) :=
  let all_source_wells :=
    if (source_plate_format =? 96)%Z then generate_96_well_positions
    else generate_384_well_positions in
  let all_dest_wells :=
    if (dest_plate_format =? 96)%Z then generate_96_well_positions
    else generate_384_well_positions in
  let max_source := Z.of_nat (length all_source_wells) in
  let max_dest := Z.of_nat (length all_dest_wells) in
  if (num_primers >? max_source)%Z then Raise "ValueError"
  else if (num_primers >? max_dest)%Z then Raise "ValueError"
  else
    let source_wells := slice_to num_primers all_source_wells in
    let dest_wells := slice_to num_primers all_dest_wells in
    generate_echo_csv source_wells dest_wells transfer_volume_nl.

Section Decoding.

Context {B : Builtins}.

(** [row = ord(well[0].upper()) - ord('A'); col = int(well[1:]) - 1] *)
Definition well_to_row_col (well : string) : outcome (Z * Z) :=
  match well with
  | EmptyString => Raise "IndexError"
  | String c rest =>
      code <- py_ord (py_upper (String c EmptyString)) ;;
      number <- py_int rest ;;
      Done (code - 65, number - 1)%Z
  end.

End Decoding.

(** The plate a format argument selects: 96 wells in rows of 12 for
    [96], 384 wells in rows of 24 for anything else. *)
Definition plate_size (plate_format : Z) : nat :=
  if (plate_format =? 96)%Z then 96 else 384.

Definition plate_columns (plate_format : Z) : nat :=
  if (plate_format =? 96)%Z then 12 else 24.

Definition plate_wells (plate_format : Z) : list string :=
  if (plate_format =? 96)%Z then generate_96_well_positions
  else generate_384_well_positions.

Definition plate_argument (plate_format : Z) : Z :=
  if (plate_format =? 96)%Z then 96%Z else 384%Z.

End EchoTransfer.

(** *** Labels and positions *)

Lemma nth_error_seq_lt a n i : i < n -> nth_error (seq a n) i = Some (a + i).
Proof.
  intros Hi. rewrite (nth_error_nth' _ 0) by (rewrite length_seq; exact Hi).
  now rewrite seq_nth.
Qed.

(** Position [ncols * r + c] of a list built row by row. *)
Lemma nth_error_row_major {A : Type} (f : nat -> nat -> A) nrows ncols r c :
  r < nrows -> c < ncols ->
  nth_error (flat_map (fun row => map (f row) (seq 0 ncols)) (seq 0 nrows)) (ncols * r + c)
  = Some (f r c).
Proof.
  induction nrows as [|n IH]; intros Hr Hc; [lia|].
  rewrite seq_S, flat_map_app. cbn [flat_map Nat.add]. rewrite app_nil_r.
  assert (Hlen : length (flat_map (fun row => map (f row) (seq 0 ncols)) (seq 0 n))
                 = n * ncols).
  { rewrite (flat_map_length_const _ _ ncols); [now rewrite length_seq|].
    intros row. now rewrite length_map, length_seq. }
  destruct (Nat.eq_dec r n) as [->|Hne].
  - rewrite nth_error_app2 by (rewrite Hlen; lia). rewrite Hlen.
    replace (ncols * n + c - n * ncols) with c by lia.
    rewrite nth_error_map, nth_error_seq_lt by exact Hc. reflexivity.
  - rewrite nth_error_app1 by (rewrite Hlen; nia). apply IH; [lia|exact Hc].
Qed.

Section WellLabels.

Context {B : Builtins}.

Lemma row_col_label_decodes row col plate_format :
  row < 26 -> col < 1000 ->
  EchoTransfer.well_to_row_col (EchoTransfer.row_col_to_well row col plate_format)
    = Done (Z.of_nat row, Z.of_nat col).
Proof.
  intros Hrow Hcol.
  unfold EchoTransfer.well_to_row_col, EchoTransfer.row_col_to_well.
  rewrite py_upper_capital by exact Hrow.
  cbn [py_ord bind]. rewrite nat_ascii_embedding by lia.
  rewrite py_int_decimal by lia. cbn [bind].
  f_equal. f_equal; lia.
Qed.

(** X9 -- decoding a label undoes encoding it: for a row below 26 (a
    letter A to Z) and a column below 1000, [well_to_row_col] of the
    label [row_col_to_well] forms is that row and column; the label with
    the row letter in lower case decodes to the same position. *)
Theorem well_label_round_trip row col plate_format :
  row < 26 -> col < 1000 ->
  EchoTransfer.well_to_row_col (EchoTransfer.row_col_to_well row col plate_format)
    = Done (Z.of_nat row, Z.of_nat col) /\
  EchoTransfer.well_to_row_col (String (ascii_of_nat (97 + row)) (str (col + 1)))
    = Done (Z.of_nat row, Z.of_nat col).
Proof.
  intros Hrow Hcol.
  unfold EchoTransfer.well_to_row_col, EchoTransfer.row_col_to_well.
  rewrite py_upper_capital, py_upper_small by exact Hrow.
  cbn [py_ord bind]. rewrite nat_ascii_embedding by lia.
  rewrite py_int_decimal by lia. cbn [bind].
  split; f_equal; f_equal; lia.
Qed.

End WellLabels.

Lemma well_label_round_trip_witness :
  EchoTransfer.well_to_row_col (B := ascii_builtins)
    (EchoTransfer.row_col_to_well 15 23 384) = Done (Z.of_nat 15, Z.of_nat 23) /\
  EchoTransfer.well_to_row_col (B := ascii_builtins)
    (String (ascii_of_nat (97 + 15)) (str (23 + 1))) = Done (Z.of_nat 15, Z.of_nat 23).
Proof.
  apply (well_label_round_trip (B := ascii_builtins) 15 23 384); lia.
Defined.

Lemma plate_wells_length plate_format :
  length (EchoTransfer.plate_wells plate_format) = EchoTransfer.plate_size plate_format.
Proof.
  unfold EchoTransfer.plate_wells, EchoTransfer.plate_size.
  destruct (plate_format =? 96)%Z; reflexivity.
Qed.

Lemma plate_wells_nth plate_format i :
  i < EchoTransfer.plate_size plate_format ->
  nth_error (EchoTransfer.plate_wells plate_format) i
  = Some (EchoTransfer.row_col_to_well
            (i / EchoTransfer.plate_columns plate_format)
            (i mod EchoTransfer.plate_columns plate_format)
            (EchoTransfer.plate_argument plate_format)).
Proof.
  unfold EchoTransfer.plate_wells, EchoTransfer.plate_size, EchoTransfer.plate_columns,
    EchoTransfer.plate_argument.
  destruct (plate_format =? 96)%Z; intros Hi.
  - rewrite (Nat.div_mod_eq i 12) at 1.
    apply (nth_error_row_major (fun row col => EchoTransfer.row_col_to_well row col 96)).
    + apply Nat.Div0.div_lt_upper_bound. lia.
    + apply Nat.mod_upper_bound. lia.
  - rewrite (Nat.div_mod_eq i 24) at 1.
    apply (nth_error_row_major (fun row col => EchoTransfer.row_col_to_well row col 384)).
    + apply Nat.Div0.div_lt_upper_bound. lia.
    + apply Nat.mod_upper_bound. lia.
Qed.

(** X10 -- the two well lists of [echo_transfer.py] are row-major and
    free of repeats: [generate_384_well_positions] has 384 labels, the
    one at position [24 r + c] being the label of row [r], column [c],
    which decodes back to [(r, c)]; it is the list [wells384_list] of the
    utilities module. [generate_96_well_positions] has 96 labels, the one
    at [12 r + c] being that of row [r], column [c], and each of them is a
    label of the 384-well list. *)
Theorem well_positions_row_major {B : Builtins} :
  (length EchoTransfer.generate_384_well_positions = 384 /\
   NoDup EchoTransfer.generate_384_well_positions /\
   EchoTransfer.generate_384_well_positions = wells384_list /\
   forall r c, r < 16 -> c < 24 ->
     nth_error EchoTransfer.generate_384_well_positions (24 * r + c)
       = Some (EchoTransfer.row_col_to_well r c 384) /\
     EchoTransfer.well_to_row_col (EchoTransfer.row_col_to_well r c 384)
       = Done (Z.of_nat r, Z.of_nat c)) /\
  (length EchoTransfer.generate_96_well_positions = 96 /\
   NoDup EchoTransfer.generate_96_well_positions /\
   incl EchoTransfer.generate_96_well_positions EchoTransfer.generate_384_well_positions /\
   forall r c, r < 8 -> c < 12 ->
     nth_error EchoTransfer.generate_96_well_positions (12 * r + c)
       = Some (EchoTransfer.row_col_to_well r c 96) /\
     EchoTransfer.well_to_row_col (EchoTransfer.row_col_to_well r c 96)
       = Done (Z.of_nat r, Z.of_nat c)).
Proof.
  assert (E384 : nodup string_dec EchoTransfer.generate_384_well_positions
                 = EchoTransfer.generate_384_well_positions) by (vm_compute; reflexivity).
  assert (E96 : nodup string_dec EchoTransfer.generate_96_well_positions
                = EchoTransfer.generate_96_well_positions) by (vm_compute; reflexivity).
  assert (Hincl : forallb (fun w => if in_dec string_dec w
                                         EchoTransfer.generate_384_well_positions
                                    then true else false)
                          EchoTransfer.generate_96_well_positions = true)
    by (vm_compute; reflexivity).
  split.
  - split; [reflexivity|]. split; [rewrite <- E384; apply NoDup_nodup|].
    split; [vm_compute; reflexivity|]. intros r c Hr Hc. split.
    + apply (nth_error_row_major (fun row col => EchoTransfer.row_col_to_well row col 384));
        assumption.
    + apply row_col_label_decodes; lia.
  - split; [reflexivity|]. split; [rewrite <- E96; apply NoDup_nodup|]. split.
    + intros w Hw. rewrite forallb_forall in Hincl. specialize (Hincl w Hw).
      destruct (in_dec string_dec w EchoTransfer.generate_384_well_positions);
        [assumption|discriminate].
    + intros r c Hr Hc. split.
      * apply (nth_error_row_major (fun row col => EchoTransfer.row_col_to_well row col 96));
          assumption.
      * apply row_col_label_decodes; lia.
Qed.

(** *** The primer transfer file *)

Lemma slice_to_nonneg {A : Type} (n : Z) (l : list A) :
  (0 <= n)%Z -> slice_to n l = firstn (Z.to_nat n) l.
Proof. intros Hn. unfold slice_to. destruct (Z.ltb_spec n 0); [lia|reflexivity]. Qed.

Lemma slice_to_negative {A : Type} (n : Z) (l : list A) :
  (n < 0)%Z -> slice_to n l = firstn (Z.to_nat (Z.of_nat (length l) + n)) l.
Proof. intros Hn. unfold slice_to. destruct (Z.ltb_spec n 0); [reflexivity|lia]. Qed.

(** The file written for the first [k] wells of each plate. *)
Lemma generate_echo_csv_prefixes {V : Type} (k : nat) source_format dest_format (vol : V) :
  k <= EchoTransfer.plate_size source_format ->
  k <= EchoTransfer.plate_size dest_format ->
  exists file,
    EchoTransfer.generate_echo_csv
      (firstn k (EchoTransfer.plate_wells source_format))
      (firstn k (EchoTransfer.plate_wells dest_format)) vol = Done file /\
    EchoTransfer.csv_header file = ["Source Well"; "Destination Well"; "Transfer Volume"] /\
    length (EchoTransfer.csv_rows file) = k /\
    forall i, i < k ->
      nth_error (EchoTransfer.csv_rows file) i
      = Some (EchoTransfer.row_col_to_well
                (i / EchoTransfer.plate_columns source_format)
                (i mod EchoTransfer.plate_columns source_format)
                (EchoTransfer.plate_argument source_format),
              EchoTransfer.row_col_to_well
                (i / EchoTransfer.plate_columns dest_format)
                (i mod EchoTransfer.plate_columns dest_format)
                (EchoTransfer.plate_argument dest_format),
              vol).
Proof.
  intros Hs Hd. unfold EchoTransfer.generate_echo_csv.
  assert (Ls : length (firstn k (EchoTransfer.plate_wells source_format)) = k).
  { rewrite length_firstn, plate_wells_length. lia. }
  assert (Ld : length (firstn k (EchoTransfer.plate_wells dest_format)) = k).
  { rewrite length_firstn, plate_wells_length. lia. }
  rewrite Ls, Ld, Nat.eqb_refl. cbn [negb]. eexists. split; [reflexivity|].
  cbn [EchoTransfer.csv_header EchoTransfer.csv_rows]. split; [reflexivity|]. split.
  - rewrite length_map, length_combine. lia.
  - intros i Hi. rewrite nth_error_map.
    rewrite (nth_error_combine _ _ i
               (EchoTransfer.row_col_to_well
                  (i / EchoTransfer.plate_columns source_format)
                  (i mod EchoTransfer.plate_columns source_format)
                  (EchoTransfer.plate_argument source_format))
               (EchoTransfer.row_col_to_well
                  (i / EchoTransfer.plate_columns dest_format)
                  (i mod EchoTransfer.plate_columns dest_format)
                  (EchoTransfer.plate_argument dest_format))).
    + reflexivity.
    + rewrite nth_error_firstn. destruct (Nat.ltb_spec i k); [|lia].
      apply plate_wells_nth. lia.
    + rewrite nth_error_firstn. destruct (Nat.ltb_spec i k); [|lia].
      apply plate_wells_nth. lia.
Qed.

(** X11 -- [generate_primer_transfer_csv] for a count [n >= 0]. When [n]
    exceeds neither plate, the file holds the header and exactly [n]
    transfers, the one at position [i] going from the source plate's
    well number [i] to the destination plate's well number [i], both
    counted row by row on their own plate (12 columns for format 96, 24
    for any other), with the given volume. When [n] exceeds the source
    or the destination plate, the call raises [ValueError] and writes
    nothing. *)
Theorem primer_transfer_rows {V : Type} (n : Z) source_format dest_format (vol : V) :
  (0 <= n)%Z ->
  ((n <= Z.of_nat (EchoTransfer.plate_size source_format))%Z /\
   (n <= Z.of_nat (EchoTransfer.plate_size dest_format))%Z ->
   exists file,
     EchoTransfer.generate_primer_transfer_csv n source_format dest_format vol
       = Done file /\
     EchoTransfer.csv_header file = ["Source Well"; "Destination Well"; "Transfer Volume"] /\
     length (EchoTransfer.csv_rows file) = Z.to_nat n /\
     forall i, i < Z.to_nat n ->
       nth_error (EchoTransfer.csv_rows file) i
       = Some (EchoTransfer.row_col_to_well
                 (i / EchoTransfer.plate_columns source_format)
                 (i mod EchoTransfer.plate_columns source_format)
                 (EchoTransfer.plate_argument source_format),
               EchoTransfer.row_col_to_well
                 (i / EchoTransfer.plate_columns dest_format)
                 (i mod EchoTransfer.plate_columns dest_format)
                 (EchoTransfer.plate_argument dest_format),
               vol)) /\
  ((Z.of_nat (EchoTransfer.plate_size source_format) < n)%Z \/
   (Z.of_nat (EchoTransfer.plate_size dest_format) < n)%Z ->
   EchoTransfer.generate_primer_transfer_csv n source_format dest_format vol
     = Raise "ValueError").
Proof.
  intros Hn. unfold EchoTransfer.generate_primer_transfer_csv.
  fold (EchoTransfer.plate_wells source_format). fold (EchoTransfer.plate_wells dest_format).
  rewrite !plate_wells_length, !Z.gtb_ltb. split.
  - intros [Hs Hd].
    destruct (Z.ltb_spec (Z.of_nat (EchoTransfer.plate_size source_format)) n); [lia|].
    destruct (Z.ltb_spec (Z.of_nat (EchoTransfer.plate_size dest_format)) n); [lia|].
    rewrite !slice_to_nonneg by exact Hn.
    apply generate_echo_csv_prefixes; lia.
  - intros Hover.
    destruct (Z.ltb_spec (Z.of_nat (EchoTransfer.plate_size source_format)) n);
      [reflexivity|].
    destruct (Z.ltb_spec (Z.of_nat (EchoTransfer.plate_size dest_format)) n);
      [reflexivity|lia].
Qed.

Lemma primer_transfer_rows_witness :
  ((13 <= Z.of_nat (EchoTransfer.plate_size 96))%Z /\
   (13 <= Z.of_nat (EchoTransfer.plate_size 384))%Z ->
   exists file,
     EchoTransfer.generate_primer_transfer_csv 13 96 384 100%Z = Done file /\
     EchoTransfer.csv_header file = ["Source Well"; "Destination Well"; "Transfer Volume"] /\
     length (EchoTransfer.csv_rows file) = Z.to_nat 13 /\
     forall i, i < Z.to_nat 13 ->
       nth_error (EchoTransfer.csv_rows file) i
       = Some (EchoTransfer.row_col_to_well
                 (i / EchoTransfer.plate_columns 96) (i mod EchoTransfer.plate_columns 96)
                 (EchoTransfer.plate_argument 96),
               EchoTransfer.row_col_to_well
                 (i / EchoTransfer.plate_columns 384) (i mod EchoTransfer.plate_columns 384)
                 (EchoTransfer.plate_argument 384),
               100%Z)) /\
  ((Z.of_nat (EchoTransfer.plate_size 96) < 13)%Z \/
   (Z.of_nat (EchoTransfer.plate_size 384) < 13)%Z ->
   EchoTransfer.generate_primer_transfer_csv 13 96 384 100%Z = Raise "ValueError").
Proof.
  apply (primer_transfer_rows 13 96 384 100%Z). lia.
Defined.

Lemma plate_size_cases plate_format :
  EchoTransfer.plate_size plate_format = 96 \/ EchoTransfer.plate_size plate_format = 384.
Proof. unfold EchoTransfer.plate_size. destruct (plate_format =? 96)%Z; auto. Qed.

(** X12 -- [generate_primer_transfer_csv] for a negative count [n]. The
    count passes both size checks and reaches the slices [[:n]], which
    drop the last [-n] wells of each plate. On plates of one size the
    call therefore succeeds and writes the transfers of all wells but
    the last [-n]; on plates of different sizes the two slices differ in
    length and the call raises [ValueError], unless [n <= -384] empties
    both, in which case it writes the header alone. *)
Theorem primer_transfer_negative_count {V : Type} (n : Z) source_format dest_format
    (vol : V) :
  (n < 0)%Z ->
  (EchoTransfer.plate_size source_format = EchoTransfer.plate_size dest_format ->
   exists file,
     EchoTransfer.generate_primer_transfer_csv n source_format dest_format vol
       = Done file /\
     length (EchoTransfer.csv_rows file)
       = Z.to_nat (Z.of_nat (EchoTransfer.plate_size source_format) + n) /\
     forall i, i < Z.to_nat (Z.of_nat (EchoTransfer.plate_size source_format) + n) ->
       nth_error (EchoTransfer.csv_rows file) i
       = Some (EchoTransfer.row_col_to_well
                 (i / EchoTransfer.plate_columns source_format)
                 (i mod EchoTransfer.plate_columns source_format)
                 (EchoTransfer.plate_argument source_format),
               EchoTransfer.row_col_to_well
                 (i / EchoTransfer.plate_columns dest_format)
                 (i mod EchoTransfer.plate_columns dest_format)
                 (EchoTransfer.plate_argument dest_format),
               vol)) /\
  (EchoTransfer.plate_size source_format <> EchoTransfer.plate_size dest_format ->
   (-384 < n)%Z ->
   EchoTransfer.generate_primer_transfer_csv n source_format dest_format vol
     = Raise "ValueError") /\
  ((n <= -384)%Z ->
   exists file,
     EchoTransfer.generate_primer_transfer_csv n source_format dest_format vol
       = Done file /\
     EchoTransfer.csv_rows file = []).
Proof.
  intros Hn. unfold EchoTransfer.generate_primer_transfer_csv.
  fold (EchoTransfer.plate_wells source_format). fold (EchoTransfer.plate_wells dest_format).
  rewrite !plate_wells_length, !Z.gtb_ltb.
  destruct (Z.ltb_spec (Z.of_nat (EchoTransfer.plate_size source_format)) n); [lia|].
  destruct (Z.ltb_spec (Z.of_nat (EchoTransfer.plate_size dest_format)) n); [lia|].
  rewrite !slice_to_negative by exact Hn. rewrite !plate_wells_length.
  pose proof (plate_size_cases source_format) as Hs.
  pose proof (plate_size_cases dest_format) as Hd.
  split; [|split].
  - intros Heq. rewrite <- Heq.
    destruct (generate_echo_csv_prefixes
                (Z.to_nat (Z.of_nat (EchoTransfer.plate_size source_format) + n))
                source_format dest_format vol) as (file & Hfile & _ & Hlen & Hnth);
      [lia|lia|].
    exists file. auto.
  - intros Hne Hlow. unfold EchoTransfer.generate_echo_csv.
    rewrite !length_firstn, !plate_wells_length.
    destruct (Nat.eqb_spec
                (Nat.min (Z.to_nat (Z.of_nat (EchoTransfer.plate_size source_format) + n))
                         (EchoTransfer.plate_size source_format))
                (Nat.min (Z.to_nat (Z.of_nat (EchoTransfer.plate_size dest_format) + n))
                         (EchoTransfer.plate_size dest_format))); [lia|reflexivity].
  - intros Hlow.
    replace (Z.to_nat (Z.of_nat (EchoTransfer.plate_size source_format) + n)) with 0 by lia.
    replace (Z.to_nat (Z.of_nat (EchoTransfer.plate_size dest_format) + n)) with 0 by lia.
    eexists. split; reflexivity.
Qed.

Lemma primer_transfer_negative_count_witness :
  (EchoTransfer.plate_size 96 = EchoTransfer.plate_size 96 ->
   exists file,
     EchoTransfer.generate_primer_transfer_csv (-1) 96 96 100%Z = Done file /\
     length (EchoTransfer.csv_rows file)
       = Z.to_nat (Z.of_nat (EchoTransfer.plate_size 96) + -1) /\
     forall i, i < Z.to_nat (Z.of_nat (EchoTransfer.plate_size 96) + -1) ->
       nth_error (EchoTransfer.csv_rows file) i
       = Some (EchoTransfer.row_col_to_well
                 (i / EchoTransfer.plate_columns 96) (i mod EchoTransfer.plate_columns 96)
                 (EchoTransfer.plate_argument 96),
               EchoTransfer.row_col_to_well
                 (i / EchoTransfer.plate_columns 96) (i mod EchoTransfer.plate_columns 96)
                 (EchoTransfer.plate_argument 96),
               100%Z)) /\
  (EchoTransfer.plate_size 96 <> EchoTransfer.plate_size 96 ->
   (-384 < -1)%Z ->
   EchoTransfer.generate_primer_transfer_csv (-1) 96 96 100%Z = Raise "ValueError") /\
  ((-1 <= -384)%Z ->
   exists file,
     EchoTransfer.generate_primer_transfer_csv (-1) 96 96 100%Z = Done file /\
     EchoTransfer.csv_rows file = []).
Proof.
  apply (primer_transfer_negative_count (-1) 96 96 100%Z). lia.
Defined.

(** With the default formats, 96 and 384, a count of -1 is refused. *)
Lemma primer_transfer_minus_one :
  EchoTransfer.generate_primer_transfer_csv (-1) 96 384 100%Z = Raise "ValueError".
Proof. reflexivity. Qed.

(** ** [generate_heatmap_mapping.py] *)

(** The position [l[i]] names, for any integer [i]: a negative index
    counts from the end; [None] stands for an [IndexError]. *)
Definition list_index (len : nat) (i : Z) : option nat :=
  if (0 <=? i)%Z && (i <? Z.of_nat len)%Z then Some (Z.to_nat i)
  else if (i <? 0)%Z && (- Z.of_nat len <=? i)%Z then Some (Z.to_nat (Z.of_nat len + i))
  else None.

Fixpoint set_nth {A : Type} (n : nat) (x : A) (l : list A) : list A :=
  match l, n with
  | [], _ => []
  | _ :: l', 0 => x :: l'
  | y :: l', S n' => y :: set_nth n' x l'
  end.

(** [l[i] = x] *)
Definition setitem {A : Type} (l : list A) (i : Z) (x : A) : outcome (list A) :=
  match list_index (length l) i with
  | Some k => Done (set_nth k x l)
  | None => Raise "IndexError"
  end.

Module Heatmap.

(** A line of the coordinate mapping, as handed to the CSV writer. *)
Record mapping_row : Type := {
  m_Barcode_Name : string;
  m_Well : string;
  m_Row : string;
  m_Column : Z;
  m_Row_Index : Z;
  m_Column_Index : Z
}.

Section Code.

Context {B : Builtins}.

(** [row_letter = well[0].upper(); col_number = int(well[1:]);
    row_index = ord(row_letter) - ord('A'); col_index = col_number - 1] *)
Definition well_to_row_col (well : string) : outcome (string * Z * Z * Z) :=
  match well with
  | EmptyString => Raise "IndexError"
  | String c rest =>
      let row_letter := py_upper (String c EmptyString) in
      col_number <- py_int rest ;;
      code <- py_ord row_letter ;;
      Done (row_letter, col_number, code - 65, col_number - 1)%Z
  end.

(** The body of the filling loop of [generate_plate_layout_matrix] for
    one [(well, barcode_name)]: the test bounds the indices from above
    only, then [matrix[row_index][col_index] = barcode_name]. *)
Definition place (num_rows num_cols : nat) (entry : string * string)
    (matrix : list (list string)) : outcome (list (list string)) :=
  let '(well, barcode_name) := entry in
  '(row_letter, col_number, row_index, col_index) <- well_to_row_col well ;;
  if (row_index <? Z.of_nat num_rows)%Z && (col_index <? Z.of_nat num_cols)%Z then
    match list_index (length matrix) row_index with
    | None => Raise "IndexError"
    | Some r =>
        row <- getitem matrix r ;;
        row' <- setitem row col_index barcode_name ;;
        Done (set_nth r row' matrix)
    end
  else Done matrix.

Fixpoint fill (num_rows num_cols : nat) (barcodes : list (string * string))
    (matrix : list (list string)) : outcome (list (list string)) :=
  match barcodes with
  | [] => Done matrix
  | entry :: rest =>
      matrix' <- place num_rows num_cols entry matrix ;;
      fill num_rows num_cols rest matrix'
  end.

(** [generate_plate_layout_matrix] from the list [parse_barcode_csv]
    returned: the lines handed to the CSV writer. Every error comes
    before the output file is opened. *)
Definition generate_plate_layout_matrix (barcodes : list (string * string))
    (plate_format : Z) : outcome (list (list string)) :=
  '(num_rows, num_cols) <-
    (if (plate_format =? 96)%Z then Done (8, 12)
     else if (plate_format =? 384)%Z then Done (16, 24)
     else Raise "ValueError") ;;
  matrix <- fill num_rows num_cols barcodes (repeat (repeat "" num_cols) num_rows) ;;
  let header := "Row" :: map (fun i => str (i + 1)) (seq 0 num_cols) in
  Done (header ::
        map (fun irow => String (ascii_of_nat (65 + fst irow)) "" :: snd irow)
            (combine (seq 0 (length matrix)) matrix)).

(** The loop of [generate_heatmap_mapping] from the list
    [parse_barcode_csv] returned: the lines written after the header, and
    how the loop ended. The file is open while the loop runs, so the
    lines written before an error stay in it. *)
Fixpoint write_mapping (barcodes : list (string * string))
    : list mapping_row * outcome unit :=
  match barcodes with
  | [] => ([], Done tt)
  | (well, barcode_name) :: rest =>
      match well_to_row_col well with
      | Done (row_letter, col_number, row_index, col_index) =>
          let '(lines, result) := write_mapping rest in
          ({| m_Barcode_Name := barcode_name; m_Well := well; m_Row := row_letter;
              m_Column := col_number; m_Row_Index := row_index;
              m_Column_Index := col_index |} :: lines, result)
      | Raise exc => ([], Raise exc)
      | OutOfFuel => ([], OutOfFuel)
      end
  end.

Definition mapping_header : list string :=
  ["Barcode_Name"; "Well"; "Row"; "Column"; "Row_Index"; "Column_Index"].

Definition generate_heatmap_mapping (barcodes : list (string * string))
    : list string * list mapping_row * outcome unit :=
  let '(lines, result) := write_mapping barcodes in
  (mapping_header, lines, result).

(** The position a well decodes to, when it decodes. *)
Definition decoded_position (well : string) : option (Z * Z) :=
  match well_to_row_col well with
  | Done (_, _, row_index, col_index) => Some (row_index, col_index)
  | _ => None
  end.

End Code.

(** The cell of the matrix an accepted position writes to: itself when
    it is not negative, counted from the end of the row or column when
    it is. *)
Definition target (num_rows num_cols : nat) (position : Z * Z) : option (nat * nat) :=
  let '(row_index, col_index) := position in
  if (row_index <? Z.of_nat num_rows)%Z && (col_index <? Z.of_nat num_cols)%Z
  then Some (Z.to_nat (row_index mod Z.of_nat num_rows),
             Z.to_nat (col_index mod Z.of_nat num_cols))
  else None.

(** The plate of a supported format. *)
Definition dimensions (plate_format : Z) : option (nat * nat) :=
  if (plate_format =? 96)%Z then Some (8, 12)
  else if (plate_format =? 384)%Z then Some (16, 24)
  else None.

End Heatmap.

(** *** Item assignment *)

Lemma set_nth_length {A : Type} (n : nat) (x : A) (l : list A) :
  length (set_nth n x l) = length l.
Proof.
  revert n. induction l as [|y l IH]; intros [|n]; cbn; try reflexivity. now rewrite IH.
Qed.

Lemma set_nth_Forall {A : Type} (P : A -> Prop) (n : nat) (x : A) (l : list A) :
  Forall P l -> P x -> Forall P (set_nth n x l).
Proof.
  intros Hl Hx. revert n. induction Hl as [|y l Hy Hl IH]; intros [|n]; cbn;
    constructor; auto.
Qed.

Lemma nth_set_nth {A : Type} (n0 n : nat) (x d : A) (l : list A) :
  n0 < length l ->
  nth n (set_nth n0 x l) d = if n =? n0 then x else nth n l d.
Proof.
  revert n0 n. induction l as [|y l IH]; intros [|n0] [|n] Hlt; cbn in *;
    try reflexivity; try lia.
  apply IH. lia.
Qed.

Lemma list_index_lt len i k : list_index len i = Some k -> k < len.
Proof.
  unfold list_index.
  destruct ((0 <=? i)%Z && (i <? Z.of_nat len)%Z) eqn:E1.
  - intros Hk. injection Hk as <-. apply andb_true_iff in E1. destruct E1 as [H1 H2].
    apply Z.leb_le in H1. apply Z.ltb_lt in H2. lia.
  - destruct ((i <? 0)%Z && (- Z.of_nat len <=? i)%Z) eqn:E2; [|discriminate].
    intros Hk. injection Hk as <-. apply andb_true_iff in E2. destruct E2 as [H1 H2].
    apply Z.ltb_lt in H1. apply Z.leb_le in H2. lia.
Qed.

(** An index from [-len] up to, not including, [len] names the position
    [i mod len]. *)
Lemma list_index_mod len i :
  (- Z.of_nat len <= i < Z.of_nat len)%Z ->
  list_index len i = Some (Z.to_nat (i mod Z.of_nat len)).
Proof.
  intros Hi. unfold list_index.
  destruct (Z.leb_spec 0 i), (Z.ltb_spec i (Z.of_nat len)); cbn [andb]; try lia.
  - now rewrite Z.mod_small by lia.
  - destruct (Z.ltb_spec i 0), (Z.leb_spec (- Z.of_nat len) i); cbn [andb]; try lia.
    f_equal. f_equal. apply (Z.mod_unique_pos _ _ (-1)); lia.
Qed.

Lemma list_index_below len i : (i < - Z.of_nat len)%Z -> list_index len i = None.
Proof.
  intros Hi. unfold list_index.
  destruct (Z.leb_spec 0 i), (Z.ltb_spec i (Z.of_nat len)); cbn [andb]; try lia.
  destruct (Z.ltb_spec i 0), (Z.leb_spec (- Z.of_nat len) i); cbn [andb]; try lia.
  reflexivity.
Qed.

(** *** The plate layout matrix *)

Definition plate_shaped (num_rows num_cols : nat) (matrix : list (list string)) : Prop :=
  length matrix = num_rows /\ Forall (fun row => length row = num_cols) matrix.

Lemma empty_matrix_shaped num_rows num_cols :
  plate_shaped num_rows num_cols (repeat (repeat "" num_cols) num_rows).
Proof.
  split; [apply repeat_length|]. apply Forall_forall. intros row Hrow.
  apply repeat_spec in Hrow. subst row. apply repeat_length.
Qed.

Section Layout.

Context {B : Builtins}.

Lemma place_shaped num_rows num_cols entry matrix matrix' :
  plate_shaped num_rows num_cols matrix ->
  Heatmap.place num_rows num_cols entry matrix = Done matrix' ->
  plate_shaped num_rows num_cols matrix'.
Proof.
  intros [Hlen Hrows] Hplace. unfold Heatmap.place in Hplace. destruct entry as [well name].
  bind_inv Hplace. destruct a as [[[row_letter col_number] row_index] col_index].
  destruct ((row_index <? Z.of_nat num_rows)%Z && (col_index <? Z.of_nat num_cols)%Z);
    [|injection Hplace as <-; now split].
  destruct (list_index (length matrix) row_index) as [r|]; [|discriminate].
  bind_inv Hplace. bind_inv Hplace. injection Hplace as <-.
  apply getitem_Done, nth_error_In in Ha0.
  unfold setitem in Ha1. destruct (list_index (length a) col_index); [|discriminate].
  injection Ha1 as <-. split.
  - now rewrite set_nth_length.
  - apply set_nth_Forall; [exact Hrows|]. rewrite set_nth_length.
    rewrite Forall_forall in Hrows. now apply Hrows.
Qed.

Lemma fill_shaped num_rows num_cols barcodes : forall matrix matrix',
  plate_shaped num_rows num_cols matrix ->
  Heatmap.fill num_rows num_cols barcodes matrix = Done matrix' ->
  plate_shaped num_rows num_cols matrix'.
Proof.
  induction barcodes as [|entry rest IH]; intros matrix matrix' Hshape; cbn [Heatmap.fill].
  - intros H. now injection H as <-.
  - intros H. bind_inv H. apply (IH a matrix'); [|exact H].
    now apply (place_shaped _ _ entry matrix).
Qed.

(** X13 -- whatever the barcode list holds, a plate layout that is
    written has the shape of its plate: the format is 96 or 384, and the
    output is the header line and one line per plate row, each of one
    label and one field per plate column. No well label can add, drop,
    lengthen or shorten a line. For any other format the call raises
    [ValueError]. *)
Theorem layout_matrix_shape barcodes plate_format :
  (forall out,
     Heatmap.generate_plate_layout_matrix barcodes plate_format = Done out ->
     exists num_rows num_cols,
       Heatmap.dimensions plate_format = Some (num_rows, num_cols) /\
       length out = 1 + num_rows /\
       Forall (fun line => length line = 1 + num_cols) out) /\
  (Heatmap.dimensions plate_format = None ->
   Heatmap.generate_plate_layout_matrix barcodes plate_format = Raise "ValueError").
Proof.
  unfold Heatmap.generate_plate_layout_matrix, Heatmap.dimensions. split.
  - intros out Hout. bind_inv Hout. destruct a as [num_rows num_cols].
    bind_inv Hout. injection Hout as <-.
    apply (fill_shaped num_rows num_cols) in Ha0; [|apply empty_matrix_shaped].
    destruct Ha0 as [Hlen Hrows].
    exists num_rows, num_cols. split; [|split].
    + destruct (plate_format =? 96)%Z; [congruence|].
      destruct (plate_format =? 384)%Z; [congruence|discriminate].
    + cbn [length]. rewrite length_map, length_combine, length_seq. lia.
    + constructor; [cbn [length]; now rewrite length_map, length_seq|].
      apply Forall_forall. intros line Hline. apply in_map_iff in Hline.
      destruct Hline as ([i row] & <- & Hin). apply in_combine_r in Hin.
      rewrite Forall_forall in Hrows. cbn [snd length]. now rewrite (Hrows row Hin).
  - destruct (plate_format =? 96)%Z; [discriminate|].
    destruct (plate_format =? 384)%Z; [discriminate|reflexivity].
Qed.

End Layout.

Definition layout_example : list (string * string) :=
  [("A1", "BC01"); ("B12", "BC02"); ("b12", "BC03"); ("H0", "BC04"); ("Z9", "BC05")].

Lemma layout_matrix_shape_witness :
  exists out,
    Heatmap.generate_plate_layout_matrix (B := ascii_builtins) layout_example 96
      = Done out /\
    exists num_rows num_cols,
      Heatmap.dimensions 96 = Some (num_rows, num_cols) /\
      length out = 1 + num_rows /\
      Forall (fun line => length line = 1 + num_cols) out.
Proof.
  run_done (Heatmap.generate_plate_layout_matrix (B := ascii_builtins) layout_example 96)
           out E.
  exists out. split; [reflexivity|].
  exact (proj1 (layout_matrix_shape (B := ascii_builtins) layout_example 96) out E).
Defined.

(** *** The cells of the layout *)

Section LayoutCells.

Context {B : Builtins}.

(** The entry writes the cell of row [r], column [c]. *)
Definition writes_to (num_rows num_cols r c : nat) (entry : string * string) : bool :=
  match Heatmap.decoded_position (fst entry) with
  | Some position =>
      match Heatmap.target num_rows num_cols position with
      | Some (r', c') => (r' =? r) && (c' =? c)
      | None => false
      end
  | None => false
  end.

(** The name the last entry writing the cell carries, the empty string
    when no entry writes it. *)
Definition last_written (num_rows num_cols r c : nat) (barcodes : list (string * string))
    : string :=
  match find (writes_to num_rows num_cols r c) (rev barcodes) with
  | Some entry => snd entry
  | None => ""
  end.

(** The well decodes, to indices an item assignment accepts. *)
Definition reachable (num_rows num_cols : nat) (entry : string * string) : Prop :=
  exists row_index col_index,
    Heatmap.decoded_position (fst entry) = Some (row_index, col_index) /\
    (- Z.of_nat num_rows <= row_index)%Z /\ (- Z.of_nat num_cols <= col_index)%Z.

Definition cell (matrix : list (list string)) (r c : nat) : string :=
  nth c (nth r matrix []) "".

Lemma place_cells num_rows num_cols entry matrix :
  plate_shaped num_rows num_cols matrix ->
  reachable num_rows num_cols entry ->
  exists matrix',
    Heatmap.place num_rows num_cols entry matrix = Done matrix' /\
    forall r c, r < num_rows -> c < num_cols ->
      cell matrix' r c
      = if writes_to num_rows num_cols r c entry then snd entry else cell matrix r c.
Proof.
  intros [Hlen Hrows] (ri & ci & Hpos & Hri & Hci).
  unfold writes_to. rewrite Hpos. destruct entry as [well name]. cbn [fst snd] in *.
  unfold Heatmap.place. unfold Heatmap.decoded_position in Hpos.
  destruct (Heatmap.well_to_row_col well) as [[[[letter number] ri'] ci']| |];
    try discriminate.
  injection Hpos as -> ->. cbn [bind]. unfold Heatmap.target.
  destruct ((ri <? Z.of_nat num_rows)%Z && (ci <? Z.of_nat num_cols)%Z) eqn:Htest;
    [|eexists; split; [reflexivity|reflexivity]].
  apply andb_true_iff in Htest. destruct Htest as [Hr Hc].
  apply Z.ltb_lt in Hr. apply Z.ltb_lt in Hc.
  rewrite Hlen, list_index_mod by lia.
  set (r0 := Z.to_nat (ri mod Z.of_nat num_rows)).
  set (c0 := Z.to_nat (ci mod Z.of_nat num_cols)).
  assert (Hr0 : r0 < num_rows).
  { unfold r0. pose proof (Z.mod_pos_bound ri (Z.of_nat num_rows)). lia. }
  assert (Hc0 : c0 < num_cols).
  { unfold c0. pose proof (Z.mod_pos_bound ci (Z.of_nat num_cols)). lia. }
  assert (Hrow : length (nth r0 matrix []) = num_cols).
  { rewrite Forall_forall in Hrows. apply Hrows, nth_In. lia. }
  unfold getitem. rewrite (nth_error_nth' matrix []) by lia. cbn [bind].
  unfold setitem. rewrite Hrow, list_index_mod by lia. fold c0. cbn [bind].
  eexists. split; [reflexivity|]. intros r c Hr' Hc'. unfold cell.
  rewrite nth_set_nth by lia. rewrite (Nat.eqb_sym r0 r).
  destruct (Nat.eqb_spec r r0) as [->|Hne]; cbn [andb]; [|reflexivity].
  rewrite nth_set_nth by lia. now rewrite (Nat.eqb_sym c0 c).
Qed.

Lemma find_snoc {A : Type} (f : A -> bool) (l : list A) (x : A) :
  find f (l ++ [x]) = match find f l with
                      | Some y => Some y
                      | None => if f x then Some x else None
                      end.
Proof.
  induction l as [|y l IH]; cbn; [reflexivity|]. destruct (f y); [reflexivity|exact IH].
Qed.

Lemma fill_cells num_rows num_cols barcodes : forall matrix,
  plate_shaped num_rows num_cols matrix ->
  Forall (reachable num_rows num_cols) barcodes ->
  exists matrix',
    Heatmap.fill num_rows num_cols barcodes matrix = Done matrix' /\
    plate_shaped num_rows num_cols matrix' /\
    forall r c, r < num_rows -> c < num_cols ->
      cell matrix' r c
      = match find (writes_to num_rows num_cols r c) (rev barcodes) with
        | Some entry => snd entry
        | None => cell matrix r c
        end.
Proof.
  induction barcodes as [|entry rest IH]; intros matrix Hshape Hall; cbn [Heatmap.fill].
  - exists matrix. repeat split; try apply Hshape. 
  - inversion Hall as [|? ? Hentry Hrest]; subst.
    destruct (place_cells _ _ entry matrix Hshape Hentry) as (m1 & Hplace & Hcells1).
    rewrite Hplace. cbn [bind].
    pose proof (place_shaped _ _ _ _ _ Hshape Hplace) as Hshape1.
    destruct (IH m1 Hshape1 Hrest) as (m2 & Hfill & Hshape2 & Hcells2).
    exists m2. split; [exact Hfill|]. split; [exact Hshape2|].
    intros r c Hr Hc. rewrite (Hcells2 r c Hr Hc). cbn [rev]. rewrite find_snoc.
    destruct (find (writes_to num_rows num_cols r c) (rev rest)); [reflexivity|].
    rewrite (Hcells1 r c Hr Hc).
    destruct (writes_to num_rows num_cols r c entry); reflexivity.
Qed.

Lemma cell_empty num_rows num_cols r c :
  cell (repeat (repeat "" num_cols) num_rows) r c = "".
Proof.
  unfold cell.
  assert (Hrow : forall n c', nth c' (repeat "" n) "" = "").
  { induction n as [|n IHn]; intros [|c']; cbn; auto. }
  revert r. induction num_rows as [|n IH]; intros [|r]; cbn.
  - destruct c; reflexivity.
  - destruct c; reflexivity.
  - apply Hrow.
  - apply IH.
Qed.

(** X14 -- the plate layout holds, in each cell, the name of the last
    barcode that writes it. For a supported format and a barcode list
    whose wells all decode, to indices not below minus the number of rows
    and columns, the call succeeds; its output is the header line, then
    for each plate row its letter followed by the row of the matrix; and
    the matrix cell of row [r], column [c] is the name carried by the
    last entry of the list whose position passes the test and names that
    cell, a negative index counting from the end, or the empty string
    when there is none. *)
Theorem layout_matrix_cells barcodes plate_format num_rows num_cols :
  Heatmap.dimensions plate_format = Some (num_rows, num_cols) ->
  Forall (reachable num_rows num_cols) barcodes ->
  exists matrix,
    Heatmap.generate_plate_layout_matrix barcodes plate_format
      = Done (("Row" :: map (fun i => str (i + 1)) (seq 0 num_cols)) ::
              map (fun irow => String (ascii_of_nat (65 + fst irow)) "" :: snd irow)
                  (combine (seq 0 num_rows) matrix)) /\
    plate_shaped num_rows num_cols matrix /\
    forall r c, r < num_rows -> c < num_cols ->
      cell matrix r c = last_written num_rows num_cols r c barcodes.
Proof.
  intros Hdim Hall. unfold Heatmap.generate_plate_layout_matrix.
  assert (Hsel : (if (plate_format =? 96)%Z then Done (8, 12)
                  else if (plate_format =? 384)%Z then Done (16, 24)
                  else Raise "ValueError") = Done (num_rows, num_cols)).
  { unfold Heatmap.dimensions in Hdim.
    destruct (plate_format =? 96)%Z; [congruence|].
    destruct (plate_format =? 384)%Z; [congruence|discriminate]. }
  rewrite Hsel. cbn [bind].
  destruct (fill_cells num_rows num_cols barcodes _
              (empty_matrix_shaped num_rows num_cols) Hall)
    as (matrix & Hfill & Hshape & Hcells).
  rewrite Hfill. cbn [bind]. exists matrix.
  split; [now rewrite (proj1 Hshape)|]. split; [exact Hshape|].
  intros r c Hr Hc. rewrite (Hcells r c Hr Hc). unfold last_written.
  now rewrite cell_empty.
Qed.

End LayoutCells.

Lemma layout_example_reachable :
  Forall (reachable (B := ascii_builtins) 8 12) layout_example.
Proof.
  repeat (constructor; [eexists _, _; split; [vm_compute; reflexivity|lia]|]).
  constructor.
Qed.

Lemma layout_matrix_cells_witness :
  exists matrix,
    Heatmap.generate_plate_layout_matrix (B := ascii_builtins) layout_example 96
      = Done (("Row" :: map (fun i => str (i + 1)) (seq 0 12)) ::
              map (fun irow => String (ascii_of_nat (65 + fst irow)) "" :: snd irow)
                  (combine (seq 0 8) matrix)) /\
    plate_shaped 8 12 matrix /\
    forall r c, r < 8 -> c < 12 ->
      cell matrix r c = last_written (B := ascii_builtins) 8 12 r c layout_example.
Proof.
  apply (layout_matrix_cells (B := ascii_builtins) layout_example 96 8 12).
  - reflexivity.
  - exact layout_example_reachable.
Defined.

(** In the example, B12 is written twice and keeps the later name, the
    column number 0 of H0 lands in the last column of row H, and Z9, a
    row the plate does not have, is left out. *)
Lemma layout_example_cells :
  last_written (B := ascii_builtins) 8 12 1 11 layout_example = "BC03" /\
  last_written (B := ascii_builtins) 8 12 7 11 layout_example = "BC04" /\
  last_written (B := ascii_builtins) 8 12 0 0 layout_example = "BC01" /\
  last_written (B := ascii_builtins) 8 12 0 8 layout_example = "".
Proof. vm_compute. repeat split. Qed.

Section LayoutEdges.

Context {B : Builtins}.

Lemma heatmap_label_decodes row col plate_format :
  row < 26 -> col < 1000 ->
  Heatmap.well_to_row_col (EchoTransfer.row_col_to_well row col plate_format)
  = Done (String (ascii_of_nat (65 + row)) "", Z.of_nat col + 1, Z.of_nat row,
          Z.of_nat col)%Z.
Proof.
  intros Hrow Hcol. unfold Heatmap.well_to_row_col, EchoTransfer.row_col_to_well.
  rewrite py_upper_capital by exact Hrow. rewrite py_int_decimal by lia.
  cbn [py_ord bind]. rewrite nat_ascii_embedding by lia.
  f_equal. f_equal; [f_equal; [f_equal|]|]; lia.
Qed.

Lemma column_zero_decodes row :
  row < 26 ->
  Heatmap.decoded_position (String (ascii_of_nat (65 + row)) "0")
  = Some (Z.of_nat row, -1)%Z.
Proof.
  intros Hrow. unfold Heatmap.decoded_position, Heatmap.well_to_row_col.
  rewrite py_upper_capital by exact Hrow.
  change "0" with (str 0). rewrite py_int_decimal by lia.
  cbn [py_ord bind]. rewrite nat_ascii_embedding by lia.
  f_equal. f_equal; lia.
Qed.

(** X15 -- a well whose column number is 0 is not refused: the upper
    bound test lets its column index -1 pass, and the assignment counts
    it from the end of the row. After any barcode list that fills
    without error, an entry for the well of row [r] with column number 0
    puts its name in the last column of row [r]. *)
Theorem column_zero_lands_in_last_column barcodes name plate_format num_rows num_cols r :
  Heatmap.dimensions plate_format = Some (num_rows, num_cols) ->
  Forall (reachable num_rows num_cols) barcodes ->
  r < num_rows ->
  exists matrix,
    Heatmap.generate_plate_layout_matrix
      (barcodes ++ [(String (ascii_of_nat (65 + r)) "0", name)]) plate_format
      = Done (("Row" :: map (fun i => str (i + 1)) (seq 0 num_cols)) ::
              map (fun irow => String (ascii_of_nat (65 + fst irow)) "" :: snd irow)
                  (combine (seq 0 num_rows) matrix)) /\
    cell matrix r (num_cols - 1) = name.
Proof.
  intros Hdim Hall Hr.
  assert (Hsizes : (num_rows = 8 /\ num_cols = 12) \/ (num_rows = 16 /\ num_cols = 24)).
  { unfold Heatmap.dimensions in Hdim.
    destruct (plate_format =? 96)%Z; [injection Hdim as <- <-; auto|].
    destruct (plate_format =? 384)%Z; [injection Hdim as <- <-; auto|discriminate]. }
  assert (Hr26 : r < 26) by lia.
  pose proof (column_zero_decodes r Hr26) as Hdec.
  assert (Hlast : reachable num_rows num_cols (String (ascii_of_nat (65 + r)) "0", name)).
  { exists (Z.of_nat r), (-1)%Z. cbn [fst]. split; [exact Hdec|lia]. }
  assert (Hall' : Forall (reachable num_rows num_cols)
                         (barcodes ++ [(String (ascii_of_nat (65 + r)) "0", name)])).
  { apply Forall_app. split; [exact Hall|]. now constructor. }
  unfold Heatmap.generate_plate_layout_matrix.
  assert (Hsel : (if (plate_format =? 96)%Z then Done (8, 12)
                  else if (plate_format =? 384)%Z then Done (16, 24)
                  else Raise "ValueError") = Done (num_rows, num_cols)).
  { unfold Heatmap.dimensions in Hdim.
    destruct (plate_format =? 96)%Z; [congruence|].
    destruct (plate_format =? 384)%Z; [congruence|discriminate]. }
  rewrite Hsel. cbn [bind].
  destruct (fill_cells num_rows num_cols _ _ (empty_matrix_shaped num_rows num_cols) Hall')
    as (matrix & Hfill & Hshape & Hcells).
  rewrite Hfill. cbn [bind]. exists matrix.
  split; [now rewrite (proj1 Hshape)|].
  rewrite (Hcells r (num_cols - 1)) by lia.
  rewrite rev_app_distr. cbn [rev app find].
  assert (Hw : writes_to num_rows num_cols r (num_cols - 1)
                 (String (ascii_of_nat (65 + r)) "0", name) = true).
  { unfold writes_to. cbn [fst]. rewrite Hdec. unfold Heatmap.target.
    destruct (Z.ltb_spec (Z.of_nat r) (Z.of_nat num_rows)); [|lia].
    destruct (Z.ltb_spec (-1) (Z.of_nat num_cols)); [|lia]. cbn [andb].
    rewrite Z.mod_small by lia.
    replace ((-1) mod Z.of_nat num_cols)%Z with (Z.of_nat num_cols - 1)%Z
      by (apply (Z.mod_unique_pos _ _ (-1)); lia).
    rewrite Nat2Z.id. replace (Z.to_nat (Z.of_nat num_cols - 1)) with (num_cols - 1) by lia.
    now rewrite !Nat.eqb_refl. }
  rewrite Hw. reflexivity.
Qed.

End LayoutEdges.

Lemma column_zero_lands_in_last_column_witness :
  exists matrix,
    Heatmap.generate_plate_layout_matrix (B := ascii_builtins)
      (layout_example ++ [(String (ascii_of_nat (65 + 2)) "0", "BC06")]) 96
      = Done (("Row" :: map (fun i => str (i + 1)) (seq 0 12)) ::
              map (fun irow => String (ascii_of_nat (65 + fst irow)) "" :: snd irow)
                  (combine (seq 0 8) matrix)) /\
    cell matrix 2 (12 - 1) = "BC06".
Proof.
  apply (column_zero_lands_in_last_column (B := ascii_builtins) layout_example "BC06"
           96 8 12 2).
  - reflexivity.
  - exact layout_example_reachable.
  - lia.
Defined.

(** *** The coordinate mapping *)

Section Mapping.

Context {B : Builtins}.

(** X16 -- the heatmap script reads the labels the transfer script
    writes: for a row below 26 and a column below 1000 the label of
    [row_col_to_well] decodes to its row letter, its column number
    counted from 1, and the row and column indices counted from 0; the
    label with the row letter in lower case decodes to the same four
    values, the letter in upper case. *)
Theorem heatmap_decodes_labels row col plate_format :
  row < 26 -> col < 1000 ->
  Heatmap.well_to_row_col (EchoTransfer.row_col_to_well row col plate_format)
    = Done (String (ascii_of_nat (65 + row)) "", Z.of_nat col + 1, Z.of_nat row,
            Z.of_nat col)%Z /\
  Heatmap.well_to_row_col (String (ascii_of_nat (97 + row)) (str (col + 1)))
    = Done (String (ascii_of_nat (65 + row)) "", Z.of_nat col + 1, Z.of_nat row,
            Z.of_nat col)%Z.
Proof.
  intros Hrow Hcol. split; [now apply heatmap_label_decodes|].
  unfold Heatmap.well_to_row_col.
  rewrite py_upper_small by exact Hrow. rewrite py_int_decimal by lia.
  cbn [py_ord bind]. rewrite nat_ascii_embedding by lia.
  f_equal. f_equal; [f_equal; [f_equal|]|]; lia.
Qed.

Definition decodes (entry : string * string) : Prop :=
  exists decoded, Heatmap.well_to_row_col (fst entry) = Done decoded.

(** The lines of entries that all decode: one per entry, in order, each
    carrying its entry's name and well and the four decoded values. *)
Definition line_matches (entry : string * string) (line : Heatmap.mapping_row) : Prop :=
  Heatmap.m_Barcode_Name line = snd entry /\
  Heatmap.m_Well line = fst entry /\
  Heatmap.well_to_row_col (fst entry)
    = Done (Heatmap.m_Row line, Heatmap.m_Column line, Heatmap.m_Row_Index line,
            Heatmap.m_Column_Index line).

Lemma write_mapping_prefix before : forall rest,
  Forall decodes before ->
  exists lines,
    Forall2 line_matches before lines /\
    Heatmap.write_mapping (before ++ rest)
    = (lines ++ fst (Heatmap.write_mapping rest), snd (Heatmap.write_mapping rest)).
Proof.
  induction before as [|[well name] before IH]; intros rest Hall.
  - exists []. split; [constructor|]. cbn [app]. now destruct (Heatmap.write_mapping rest).
  - inversion Hall as [|? ? [[[[letter number] ri] ci] Hdec] Hrest]; subst.
    cbn [fst] in Hdec. destruct (IH rest Hrest) as (lines & Hlines & Hwrite).
    exists ({| Heatmap.m_Barcode_Name := name; Heatmap.m_Well := well;
               Heatmap.m_Row := letter; Heatmap.m_Column := number;
               Heatmap.m_Row_Index := ri; Heatmap.m_Column_Index := ci |} :: lines).
    split.
    + constructor; [|exact Hlines]. repeat split. exact Hdec.
    + cbn [app Heatmap.write_mapping]. rewrite Hdec, Hwrite. reflexivity.
Qed.

(** X17 -- the coordinate mapping is written line by line into the open
    file. When every well decodes, the file holds the header and one
    line per barcode, in order, and the call ends normally. When the
    well of some entry fails to decode, the call raises that well's
    error, and the file is left with the header and the lines of the
    entries before it: the later entries are not written, the earlier
    lines are not withdrawn. *)
Theorem mapping_lines_until_failure before after :
  Forall decodes before ->
  (exists lines,
     Heatmap.generate_heatmap_mapping before = (Heatmap.mapping_header, lines, Done tt) /\
     Forall2 line_matches before lines) /\
  (forall well name exc,
     Heatmap.well_to_row_col well = Raise exc ->
     exists lines,
       Heatmap.generate_heatmap_mapping (before ++ (well, name) :: after)
         = (Heatmap.mapping_header, lines, Raise exc) /\
       Forall2 line_matches before lines).
Proof.
  intros Hall. split.
  - destruct (write_mapping_prefix before [] Hall) as (lines & Hlines & Hwrite).
    exists lines. split; [|exact Hlines].
    unfold Heatmap.generate_heatmap_mapping. rewrite app_nil_r in Hwrite.
    rewrite Hwrite. cbn. now rewrite app_nil_r.
  - intros well name exc Hexc.
    destruct (write_mapping_prefix before ((well, name) :: after) Hall)
      as (lines & Hlines & Hwrite).
    exists lines. split; [|exact Hlines].
    unfold Heatmap.generate_heatmap_mapping. rewrite Hwrite.
    cbn [Heatmap.write_mapping]. rewrite Hexc. cbn. now rewrite app_nil_r.
Qed.

End Mapping.

Lemma heatmap_decodes_labels_witness :
  Heatmap.well_to_row_col (B := ascii_builtins) (EchoTransfer.row_col_to_well 15 23 384)
    = Done (String (ascii_of_nat (65 + 15)) "", Z.of_nat 23 + 1, Z.of_nat 15,
            Z.of_nat 23)%Z /\
  Heatmap.well_to_row_col (B := ascii_builtins)
    (String (ascii_of_nat (97 + 15)) (str (23 + 1)))
    = Done (String (ascii_of_nat (65 + 15)) "", Z.of_nat 23 + 1, Z.of_nat 15,
            Z.of_nat 23)%Z.
Proof.
  apply (heatmap_decodes_labels (B := ascii_builtins) 15 23 384); lia.
Defined.

Definition mapping_example : list (string * string) := [("A1", "BC01"); ("B12", "BC02")].

Lemma mapping_lines_until_failure_witness :
  (exists lines,
     Heatmap.generate_heatmap_mapping (B := ascii_builtins) mapping_example
       = (Heatmap.mapping_header, lines, Done tt) /\
     Forall2 (line_matches (B := ascii_builtins)) mapping_example lines) /\
  (forall well name exc,
     Heatmap.well_to_row_col (B := ascii_builtins) well = Raise exc ->
     exists lines,
       Heatmap.generate_heatmap_mapping (B := ascii_builtins)
         (mapping_example ++ (well, name) :: [("C3", "BC03")])
         = (Heatmap.mapping_header, lines, Raise exc) /\
       Forall2 (line_matches (B := ascii_builtins)) mapping_example lines).
Proof.
  apply (mapping_lines_until_failure (B := ascii_builtins) mapping_example
           [("C3", "BC03")]).
  repeat (constructor; [eexists; vm_compute; reflexivity|]). constructor.
Defined.

(** A well without a column number stops the mapping after the lines
    before it. *)
Lemma mapping_stops_at_bad_well :
  Heatmap.generate_heatmap_mapping (B := ascii_builtins)
    [("A1", "BC01"); ("B", "BC02"); ("C3", "BC03")]
  = (Heatmap.mapping_header,
     [{| Heatmap.m_Barcode_Name := "BC01"; Heatmap.m_Well := "A1"; Heatmap.m_Row := "A";
         Heatmap.m_Column := 1; Heatmap.m_Row_Index := 0; Heatmap.m_Column_Index := 0 |}],
     Raise "ValueError").
Proof. vm_compute. reflexivity. Qed.
